(** * padlock-cloud: the account and credential subsystem of [server.go]

    A shallow embedding of the handlers of [server.go] and of the parts of
    the Go libraries they call.  Go's [string] and [[]byte] are both byte
    sequences and are modelled by [string]; a struct is a record; a
    [*leveldb.DB] handle is an explicit state that every handler takes and
    returns. *)

From Stdlib Require Import ZArith Ascii String List Lia.
From stdpp Require Import base option list strings gmap.

Local Open Scope string_scope.
Local Open Scope list_scope.
Local Open Scope nat_scope.

(** ** Data model (server.go, lines 84-99) *)

(** A wrapper for an api key containing some meta info like the user and
    device name. *)
Record ApiKey := mkApiKey {
  Email : string;
  DeviceName : string;
  Key : string
}.

(** A user with a set of api keys.  The field [Email] of the account is
    [AccEmail] here, [Email] being the projection of [ApiKey]. *)
Record AuthAccount := mkAuthAccount {
  AccEmail : string;
  ApiKeys : list ApiKey
}.

(** Go's zero values [ApiKey{}] and [AuthAccount{}]. *)
Definition ApiKey_zero : ApiKey := mkApiKey "" "" "".
Definition AuthAccount_zero : AuthAccount := mkAuthAccount "" [].

Global Instance ApiKey_eq_dec : EqDecision ApiKey.
Proof. solve_decision. Defined.

Global Instance AuthAccount_eq_dec : EqDecision AuthAccount.
Proof. solve_decision. Defined.

(** ** Methods of [AuthAccount] (lines 101-140) *)

(** [KeyForDevice]: the first key with the given device name, [nil] if
    there is none. *)
Fixpoint KeyForDevice_loop (keys : list ApiKey) (deviceName : string)
  : option ApiKey :=
  match keys with
  | [] => None
  | apiKey :: rest =>
      if String.eqb (DeviceName apiKey) deviceName then Some apiKey
      else KeyForDevice_loop rest deviceName
  end.

Definition KeyForDevice (a : AuthAccount) (deviceName : string)
  : option ApiKey :=
  KeyForDevice_loop (ApiKeys a) deviceName.

(** [RemoveKeyForDevice]: the loop returns at the first key with the given
    device name, after [append(a.ApiKeys[:i], a.ApiKeys[i+1:]...)]; later
    keys of the same name stay. *)
Fixpoint RemoveKeyForDevice_loop (keys : list ApiKey) (deviceName : string)
  : list ApiKey :=
  match keys with
  | [] => []
  | apiKey :: rest =>
      if String.eqb (DeviceName apiKey) deviceName then rest
      else apiKey :: RemoveKeyForDevice_loop rest deviceName
  end.

Definition RemoveKeyForDevice (a : AuthAccount) (deviceName : string)
  : AuthAccount :=
  mkAuthAccount (AccEmail a) (RemoveKeyForDevice_loop (ApiKeys a) deviceName).

(** [SetKey]: remove the key of the device, then append the new one. *)
Definition SetKey (a : AuthAccount) (apiKey : ApiKey) : AuthAccount :=
  let a := RemoveKeyForDevice a (DeviceName apiKey) in
  mkAuthAccount (AccEmail a) (ApiKeys a ++ [apiKey]).

(** [Validate]: does some key of the account carry this secret? *)
Fixpoint Validate_loop (keys : list ApiKey) (key : string) : bool :=
  match keys with
  | [] => false
  | apiKey :: rest =>
      if String.eqb (Key apiKey) key then true else Validate_loop rest key
  end.

Definition Validate (a : AuthAccount) (key : string) : bool :=
  Validate_loop (ApiKeys a) key.

(** The invariant of the data model: at most one key per device name. *)
Definition device_names (a : AuthAccount) : list string :=
  DeviceName <$> ApiKeys a.

Definition one_key_per_device (a : AuthAccount) : Prop :=
  NoDup (device_names a).

(** The accounts built by key merges: a fresh account, then [SetKey]s. *)
Definition merge_all (a : AuthAccount) (keys : list ApiKey) : AuthAccount :=
  foldl SetKey a keys.

(** ** Package [regexp]: the fragment used by [Auth]

    Go's [regexp] returns the leftmost match and, among the matches that
    start there, the one a backtracking search finds first.  The pattern
    of [Auth] is built from literal text and named groups around a greedy
    [.+]; [.] matches every character but a line feed.  The literals are
    ASCII, so matching bytes and matching UTF-8 runes capture the same
    text. *)
Module regexp.

Inductive piece :=
| Lit (text : string)          (* literal text *)
| Group (name : string).       (* (?P<name>.+) *)

Definition Regexp := list piece.

Definition line_feed : ascii := ascii_of_nat 10.

(** How many leading characters of [s] a run of [.] can take. *)
Fixpoint dot_run (s : list ascii) : nat :=
  match s with
  | [] => 0
  | c :: s' => if decide (c = line_feed) then 0 else S (dot_run s')
  end.

(** [strip lit s]: the rest of [s] after the literal [lit], if [s]
    starts with it. *)
Fixpoint strip (lit s : list ascii) : option (list ascii) :=
  match lit, s with
  | [], _ => Some s
  | c :: lit', d :: s' => if decide (c = d) then strip lit' s' else None
  | _ :: _, [] => None
  end.

(** A match: the matched text and the text of the groups, in order. *)
Definition found : Type := list ascii * list (list ascii).

(** A greedy [.+] followed by the rest [k] of the pattern: the longest
    run first, then one character less, down to one character. *)
Fixpoint greedy (k : list ascii → option found) (s : list ascii) (n : nat)
  : option found :=
  match n with
  | 0 => None
  | S n' =>
      match k (drop n s) with
      | Some (m, groups) => Some (take n s ++ m, take n s :: groups)
      | None => greedy k s n'
      end
  end.

(** Match the pattern at the start of [s]. *)
Fixpoint match_here (re : Regexp) (s : list ascii) : option found :=
  match re with
  | [] => Some ([], [])
  | Lit text :: re' =>
      let lit := list_ascii_of_string text in
      match strip lit s with
      | Some s' =>
          match match_here re' s' with
          | Some (m, groups) => Some (lit ++ m, groups)
          | None => None
          end
      | None => None
      end
  | Group _ :: re' => greedy (match_here re') s (dot_run s)
  end.

(** The leftmost match: try every start, from the left. *)
Fixpoint find (re : Regexp) (s : list ascii) : option found :=
  match match_here re s with
  | Some f => Some f
  | None =>
      match s with
      | [] => None
      | _ :: s' => find re s'
      end
  end.

(** [re.MatchString(s)] *)
Definition MatchString (re : Regexp) (s : string) : bool :=
  bool_decide (is_Some (find re (list_ascii_of_string s))).

(** [re.FindStringSubmatch(s)]: the match followed by the groups; [nil]
    (the empty slice) when there is no match. *)
Definition FindStringSubmatch (re : Regexp) (s : string) : list string :=
  match find re (list_ascii_of_string s) with
  | Some (m, groups) => string_of_list_ascii <$> (m :: groups)
  | None => []
  end.

End regexp.

(** ** Go's [error] values

    [leveldb.ErrNotFound] is a sentinel that the handlers compare with
    [==]; every other error is known by its message only. *)
Inductive error :=
| leveldb_ErrNotFound
| Err (msg : string).

Global Instance error_eq_dec : EqDecision error.
Proof. solve_decision. Defined.

(** [err.Error()], which is what [%s] prints. *)
Definition Error (e : error) : string :=
  match e with
  | leveldb_ErrNotFound => "leveldb: not found"
  | Err msg => msg
  end.

(** [fmt.Sprintf("%s", err)] *)
Definition Sprint (err : option error) : string :=
  match err with
  | Some e => Error e
  | None => "%!s(<nil>)"
  end.

(** ** Package [leveldb]: a database handle

    A handle holds the stored entries.  An operation can fail for reasons
    outside the program (disk, corruption, a closed handle): [faults] is
    the schedule of such failures, one slot per operation, [Some msg] for
    an operation that fails with that message.  [log] records the
    operations performed on the handle, latest first. *)
Module leveldb.

Inductive op :=
| OpGet (key : string)
| OpPut (key value : string)
| OpDelete (key : string).

Record DB := mkDB {
  entries : gmap string string;
  faults : list (option string);
  log : list op
}.

(** The failure scheduled for the next operation, if any. *)
Definition next_fault (db : DB) : option string :=
  match faults db with
  | Some msg :: _ => Some msg
  | _ => None
  end.

Definition step (o : op) (m : gmap string string) (db : DB) : DB :=
  mkDB m (tail (faults db)) (o :: log db).

(** [db.Get(key, nil)] *)
Definition Get (db : DB) (key : string) : DB * (string * option error) :=
  match next_fault db with
  | Some msg => (step (OpGet key) (entries db) db, ("", Some (Err msg)))
  | None =>
      match entries db !! key with
      | Some value => (step (OpGet key) (entries db) db, (value, None))
      | None =>
          (step (OpGet key) (entries db) db, ("", Some leveldb_ErrNotFound))
      end
  end.

(** [db.Put(key, value, nil)] *)
Definition Put (db : DB) (key value : string) : DB * option error :=
  match next_fault db with
  | Some msg => (step (OpPut key value) (entries db) db, Some (Err msg))
  | None => (step (OpPut key value) (<[key := value]> (entries db)) db, None)
  end.

(** [db.Delete(key, nil)]; deleting an absent key is not an error. *)
Definition Delete (db : DB) (key : string) : DB * option error :=
  match next_fault db with
  | Some msg => (step (OpDelete key) (entries db) db, Some (Err msg))
  | None => (step (OpDelete key) (delete key (entries db)) db, None)
  end.

(** None of the next [n] operations on the handle fails. *)
Definition fault_free (n : nat) (db : DB) : bool :=
  forallb (λ f, bool_decide (f = None)) (take n (faults db)).

(** A handle on which nothing fails. *)
Definition healthy (m : gmap string string) : DB := mkDB m [] [].

End leveldb.

(** ** Package [encoding/json]

    [json.Marshal(v)] returns the encoding and an error; [json.Unmarshal
    (data, &v)] updates [v] and returns an error.  The handlers use both at
    [ApiKey] and at [AuthAccount]; the encoding itself belongs to the
    library, so the handlers are written over any codec. *)
Class Json (T : Type) := {
  Marshal : T → string * option string;
  Unmarshal : string → T → T * option string
}.

(** The line break of a mail header, ["\r\n"]. *)
Definition crlf : string :=
  String (ascii_of_nat 13) (String (ascii_of_nat 10) "").

(** ** Package [net/smtp]: a mail server that accepts or refuses *)
Module smtp.

Record Auth := PlainAuth {
  identity : string; username : string; password : string; host : string
}.

Record Mail := mkMail {
  addr : string; auth : Auth; from : string; to : list string; msg : string
}.

Record Server := mkServer {
  refusing : option string;     (* [Some m]: every send fails with [m] *)
  delivered : list Mail
}.

Definition SendMail (srv : Server) (m : Mail) : Server * option error :=
  match refusing srv with
  | Some e => (srv, Some (Err e))
  | None => (mkServer None (delivered srv ++ [m]), None)
  end.

End smtp.

(** ** [uuid] (lines 28-35) *)

Definition hex_digit (n : Z) : ascii :=
  nth (Z.to_nat n) (list_ascii_of_string "0123456789abcdef") "0"%char.

Definition hex_byte (b : Z) : list ascii :=
  [hex_digit (Z.shiftr b 4); hex_digit (Z.land b 15)].

(** [fmt.Sprintf("%x", bs)] for a byte slice. *)
Definition hex (bs : list Z) : string :=
  string_of_list_ascii (concat (hex_byte <$> bs)).

(** [rnd] is what [rand.Read] delivers; [b] is the zeroed 16-byte buffer
    it fills. *)
Definition uuid (rnd : list Z) : string :=
  let b := take 16 (((λ x, x mod 256)%Z <$> rnd) ++ replicate 16 0%Z) in
  let b := <[6 := Z.lor (Z.land (nth 6 b 0%Z) 0x0f) 0x40]> b in
  let b := <[8 := Z.lor (Z.land (nth 8 b 0%Z) 0x3f) 0x80]> b in
  hex (take 4 b) +:+ "-" +:+ hex (take 2 (drop 4 b)) +:+ "-"
  +:+ hex (take 2 (drop 6 b)) +:+ "-" +:+ hex (take 2 (drop 8 b)) +:+ "-"
  +:+ hex (drop 10 b).

(** ** HTTP status codes of [net/http] *)
Definition StatusOK : nat := 200.
Definition StatusUnauthorized : nat := 401.
Definition StatusNotFound : nat := 404.
Definition StatusInternalServerError : nat := 500.

(** What [Auth] leaves behind: the account mapped into the request
    context, or the error response it wrote; [AuthPanic] is an index out
    of range on [matches]. *)
Inductive auth_result :=
| Mapped (authAccount : AuthAccount)
| Refused (status : nat) (message : string)
| AuthPanic.

(** ** The handlers *)
Section handlers.
Context `{!Json ApiKey, !Json AuthAccount}.

(** The settings read from the environment (lines 16-24). *)
Variables emailUser emailServer emailPort emailPassword : string.

(** [actEmailTemp.Execute] on the parsed [templates/activate.txt], as a
    function of the values of [email], [device_name] and
    [activation_link]. *)
Variable actEmailTemp : string → string → string → string.

Import leveldb.

(** [sendMail] (lines 38-54) *)
Definition sendMail (rec subject body : string) (srv : smtp.Server)
  : smtp.Server * option error :=
  let auth := smtp.PlainAuth "" emailUser emailPassword emailServer in
  let message := "Subject: " +:+ subject +:+ crlf +:+ crlf +:+ body in
  smtp.SendMail srv
    (smtp.mkMail (emailServer +:+ ":" +:+ emailPort) auth emailUser [rec]
       message).

(** [SaveAuthAccount] (lines 143-150) *)
Definition SaveAuthAccount (a : AuthAccount) (db : DB) : DB * option error :=
  let key := AccEmail a in
  let '(data, err) := Marshal a in
  match err with
  | Some msg => (db, Some (Err msg))
  | None => Put db key data
  end.

(** [FetchAuthAccount] (lines 153-169) *)
Definition FetchAuthAccount (email : string) (db : DB)
  : DB * (AuthAccount * option error) :=
  let key := email in
  let '(db, (data, err)) := Get db key in
  let acc := AuthAccount_zero in
  match err with
  | Some e => (db, (acc, Some e))
  | None =>
      let '(acc, err) := Unmarshal data acc in
      match err with
      | Some msg => (db, (acc, Some (Err msg)))
      | None => (db, (acc, None))
      end
  end.

(** The pattern of [Auth]: [ApiKey (?P<email>.+):(?P<key>.+)] *)
Definition re : regexp.Regexp :=
  [regexp.Lit "ApiKey "; regexp.Group "email"; regexp.Lit ":";
   regexp.Group "key"].

(** [Auth] (lines 174-207), on the value of the [Authorization] header. *)
Definition Auth (authHeader : string) (db : DB) : DB * auth_result :=
  if negb (regexp.MatchString re authHeader) then
    (db, Refused StatusUnauthorized "No valid authorization header provided")
  else
    let matches := regexp.FindStringSubmatch re authHeader in
    match matches !! 1, matches !! 2 with
    | Some email, Some key =>
        let '(db, (authAccount, err)) := FetchAuthAccount email db in
        match err with
        | Some e =>
            if decide (e = leveldb_ErrNotFound) then
              (db, Refused StatusUnauthorized
                     ("User " +:+ email +:+ " does not exists"))
            else
              (db, Refused StatusInternalServerError
                     ("Database error: " +:+ Error e))
        | None =>
            if negb (Validate authAccount key) then
              (db, Refused StatusUnauthorized "The provided key was not valid")
            else (db, Mapped authAccount)
        end
    | _, _ => (db, AuthPanic)
    end.

(** [RequestApiKey] (lines 212-248): the form values, the host of the
    request, the random bytes of the two [uuid] calls, the activation
    database and the mail server; the response header set, the status
    and the body. *)
Definition RequestApiKey (email deviceName host : string)
    (rnd_key rnd_token : list Z) (actDb : DB) (srv : smtp.Server)
  : DB * smtp.Server * list (string * string) * (nat * string) :=
  let key := uuid rnd_key in
  let token := uuid rnd_token in
  let apiKey := mkApiKey email deviceName key in
  let '(data, _) := Marshal apiKey in
  let '(actDb, _) := Put actDb token data in
  let body :=
    actEmailTemp (Email apiKey) (DeviceName apiKey)
      ("http://" +:+ host +:+ "/activate/" +:+ token) in
  let '(srv, _) := sendMail email "Api key activation" body srv in
  (actDb, srv, [("Content-Type", "application/json")], (StatusOK, data)).

(** [ActivateApiKey] (lines 251-294) *)
Definition ActivateApiKey (token : string) (actDB authDB : DB)
  : DB * DB * (nat * string) :=
  let '(actDB, (data, err)) := Get actDB token in
  match err with
  | Some _ => (actDB, authDB, (StatusNotFound, "Token not valid"))
  | None =>
      let '(apiKey, _) := Unmarshal data ApiKey_zero in
      let '(authDB, (acc, err)) := FetchAuthAccount (Email apiKey) authDB in
      if bool_decide (err ≠ None ∧ err ≠ Some leveldb_ErrNotFound) then
        (actDB, authDB,
         (StatusInternalServerError, "Database error: " +:+ Sprint err))
      else
          let acc :=
            if bool_decide (err = Some leveldb_ErrNotFound)
            then mkAuthAccount (Email apiKey) []
            else acc in
          let acc := SetKey acc apiKey in
          let '(authDB, err) := SaveAuthAccount acc authDB in
          let '(actDB, err) := Delete actDB token in
          match err with
          | Some e =>
              (actDB, authDB,
               (StatusInternalServerError, "Database error: " +:+ Error e))
          | None =>
              (actDB, authDB,
               (StatusOK,
                "The api key for the device " +:+ DeviceName apiKey
                +:+ " has been activated!"))
          end
  end.

(** [GetData] (lines 297-311) *)
Definition GetData (acc : AuthAccount) (db : DB) : DB * (nat * string) :=
  let '(db, (data, err)) := Get db (AccEmail acc) in
  match err with
  | Some leveldb_ErrNotFound =>
      (db, (StatusNotFound, "Could not find data for " +:+ AccEmail acc))
  | Some e =>
      (db, (StatusInternalServerError, "Database error: " +:+ Error e))
  | None => (db, (StatusOK, data))
  end.

(** [PutData] (lines 314-322) *)
Definition PutData (acc : AuthAccount) (data : string) (db : DB)
  : DB * (nat * string) :=
  let '(db, err) := Put db (AccEmail acc) data in
  match err with
  | Some e =>
      (db, (StatusInternalServerError, "Database error: " +:+ Error e))
  | None => (db, (StatusOK, data))
  end.

End handlers.

(** ** A reference JSON codec

    An executable instance of [Json] for [ApiKey] and [AuthAccount], used
    to run the handlers on concrete stores.  It writes what
    [encoding/json] writes for these structs (compact, field names from
    the struct tags, HTML-safe escapes) and reads JSON texts made of
    objects, arrays, strings, integers, [true], [false] and [null].
    Characters are bytes; a [\u] escape is read when it denotes an ASCII
    character. *)
Module refjson.

Definition chars : string → list ascii := list_ascii_of_string.

Definition dq : ascii := ascii_of_nat 34.
Definition bs : ascii := "\"%char.

(** *** Writing *)

Definition u00 (c : ascii) : list ascii :=
  chars "\u00" ++ hex_byte (Z.of_nat (nat_of_ascii c)).

Definition escape (c : ascii) : list ascii :=
  if Ascii.eqb c dq then [bs; dq]
  else if Ascii.eqb c bs then [bs; bs]
  else if Ascii.eqb c (ascii_of_nat 10) then chars "\n"
  else if Ascii.eqb c (ascii_of_nat 13) then chars "\r"
  else if Ascii.eqb c (ascii_of_nat 9) then chars "\t"
  else if (nat_of_ascii c <? 32)%nat then u00 c
  else if Ascii.eqb c "<" || Ascii.eqb c ">" || Ascii.eqb c "&" then u00 c
  else [c].

Definition write_string (s : string) : list ascii :=
  dq :: concat (escape <$> chars s) ++ [dq].

Definition write_ApiKey (k : ApiKey) : list ascii :=
  chars "{" ++ write_string "email" ++ chars ":" ++ write_string (Email k)
  ++ chars "," ++ write_string "device_name" ++ chars ":"
  ++ write_string (DeviceName k)
  ++ chars "," ++ write_string "key" ++ chars ":" ++ write_string (Key k)
  ++ chars "}".

Fixpoint write_list (ws : list (list ascii)) : list ascii :=
  match ws with
  | [] => []
  | [w] => w
  | w :: ws' => w ++ chars "," ++ write_list ws'
  end.

(** A slice without elements is written as [null], like a nil slice. *)
Definition write_AuthAccount (a : AuthAccount) : list ascii :=
  chars "{" ++ write_string "Email" ++ chars ":" ++ write_string (AccEmail a)
  ++ chars "," ++ write_string "ApiKeys" ++ chars ":"
  ++ match ApiKeys a with
     | [] => chars "null"
     | keys => chars "[" ++ write_list (write_ApiKey <$> keys) ++ chars "]"
     end
  ++ chars "}".

(** *** Reading *)

#[warnings="-register-all"]
Inductive value :=
| JNull
| JBool (b : bool)
| JNumber (digits : list ascii)
| JString (s : list ascii)
| JArray (vs : list value)
| JObject (members : list (list ascii * value)).

Definition is_space (c : ascii) : bool :=
  Ascii.eqb c " " || Ascii.eqb c (ascii_of_nat 9)
  || Ascii.eqb c (ascii_of_nat 10) || Ascii.eqb c (ascii_of_nat 13).

Definition is_digit (c : ascii) : bool :=
  (48 <=? nat_of_ascii c)%nat && (nat_of_ascii c <=? 57)%nat.

Fixpoint skip_space (s : list ascii) : list ascii :=
  match s with
  | c :: s' => if is_space c then skip_space s' else s
  | [] => []
  end.

Definition hex_value (c : ascii) : option nat :=
  let n := nat_of_ascii c in
  if is_digit c then Some (n - 48)
  else if (97 <=? n)%nat && (n <=? 102)%nat then Some (n - 87)
  else if (65 <=? n)%nat && (n <=? 70)%nat then Some (n - 55)
  else None.

(** The character of a one-letter escape. *)
Definition unescape (c : ascii) : option ascii :=
  if Ascii.eqb c dq then Some dq
  else if Ascii.eqb c bs then Some bs
  else if Ascii.eqb c "/" then Some "/"%char
  else if Ascii.eqb c "n" then Some (ascii_of_nat 10)
  else if Ascii.eqb c "r" then Some (ascii_of_nat 13)
  else if Ascii.eqb c "t" then Some (ascii_of_nat 9)
  else if Ascii.eqb c "b" then Some (ascii_of_nat 8)
  else if Ascii.eqb c "f" then Some (ascii_of_nat 12)
  else None.

(** The text of a string after its opening quote, and the rest. *)
Fixpoint read_string (s : list ascii) : option (list ascii * list ascii) :=
  match s with
  | [] => None
  | c :: s' =>
      if Ascii.eqb c dq then Some ([], s')
      else if (nat_of_ascii c <? 32)%nat then None
      else if Ascii.eqb c bs then
        match s' with
        | "u"%char :: "0"%char :: "0"%char :: h :: l :: s'' =>
            match hex_value h, hex_value l, read_string s'' with
            | Some h, Some l, Some (text, rest) =>
                if (h <? 8)%nat then Some (ascii_of_nat (16 * h + l) :: text, rest)
                else None
            | _, _, _ => None
            end
        | e :: s'' =>
            match unescape e, read_string s'' with
            | Some c', Some (text, rest) => Some (c' :: text, rest)
            | _, _ => None
            end
        | [] => None
        end
      else
        match read_string s' with
        | Some (text, rest) => Some (c :: text, rest)
        | None => None
        end
  end.

Fixpoint read_digits (s : list ascii) : list ascii * list ascii :=
  match s with
  | c :: s' =>
      if is_digit c then let '(ds, rest) := read_digits s' in (c :: ds, rest)
      else ([], s)
  | [] => ([], [])
  end.

(** [fuel] bounds the nesting and the number of elements; the length of
    the text is always enough. *)
Fixpoint read_value (fuel : nat) (s : list ascii)
  : option (value * list ascii) :=
  match fuel with
  | 0 => None
  | S fuel =>
      match skip_space s with
      | [] => None
      | c :: s' =>
          if Ascii.eqb c dq then
            match read_string s' with
            | Some (text, rest) => Some (JString text, rest)
            | None => None
            end
          else if Ascii.eqb c "[" then
            match skip_space s' with
            | "]"%char :: rest => Some (JArray [], rest)
            | _ =>
                match read_elements fuel s' with
                | Some (vs, rest) => Some (JArray vs, rest)
                | None => None
                end
            end
          else if Ascii.eqb c "{" then
            match skip_space s' with
            | "}"%char :: rest => Some (JObject [], rest)
            | _ =>
                match read_members fuel s' with
                | Some (ms, rest) => Some (JObject ms, rest)
                | None => None
                end
            end
          else if is_digit c || Ascii.eqb c "-" then
            match read_digits (if is_digit c then c :: s' else s') with
            | ([], _) => None
            | (ds, rest) => Some (JNumber (if is_digit c then ds else c :: ds), rest)
            end
          else
            match c :: s' with
            | "n"%char :: "u"%char :: "l"%char :: "l"%char :: rest =>
                Some (JNull, rest)
            | "t"%char :: "r"%char :: "u"%char :: "e"%char :: rest =>
                Some (JBool true, rest)
            | "f"%char :: "a"%char :: "l"%char :: "s"%char :: "e"%char
              :: rest => Some (JBool false, rest)
            | _ => None
            end
      end
  end
with read_elements (fuel : nat) (s : list ascii)
  : option (list value * list ascii) :=
  match fuel with
  | 0 => None
  | S fuel =>
      match read_value fuel s with
      | Some (v, rest) =>
          match skip_space rest with
          | c :: rest' =>
              if Ascii.eqb c "]" then Some ([v], rest')
              else if Ascii.eqb c "," then
                match read_elements fuel rest' with
                | Some (vs, rest'') => Some (v :: vs, rest'')
                | None => None
                end
              else None
          | [] => None
          end
      | None => None
      end
  end
with read_members (fuel : nat) (s : list ascii)
  : option (list (list ascii * value) * list ascii) :=
  match fuel with
  | 0 => None
  | S fuel =>
      match skip_space s with
      | c :: s' =>
          if Ascii.eqb c dq then
            match read_string s' with
            | Some (name, rest) =>
                match skip_space rest with
                | c' :: rest' =>
                    if Ascii.eqb c' ":" then
                      match read_value fuel rest' with
                      | Some (v, rest'') =>
                          match skip_space rest'' with
                          | d :: rest3 =>
                              if Ascii.eqb d "}" then Some ([(name, v)], rest3)
                              else if Ascii.eqb d "," then
                                match read_members fuel rest3 with
                                | Some (ms, rest4) =>
                                    Some ((name, v) :: ms, rest4)
                                | None => None
                                end
                              else None
                          | [] => None
                          end
                      | None => None
                      end
                    else None
                | [] => None
                end
            | None => None
            end
          else None
      | [] => None
      end
  end.

(** A whole text: one value, then only white space. *)
Definition read (data : string) : option value :=
  let s := chars data in
  match read_value (S (length s)) s with
  | Some (v, rest) =>
      match skip_space rest with
      | [] => Some v
      | _ => None
      end
  | None => None
  end.

(** *** Filling a struct from a value, as [Unmarshal] does

    A member is stored in the field whose name matches, ignoring case;
    other members are skipped.  [null] leaves a string as it is and
    empties a slice.  A value of the wrong kind is skipped and reported
    once the other fields are filled. *)

Definition lower (c : ascii) : ascii :=
  let n := nat_of_ascii c in
  if (65 <=? n)%nat && (n <=? 90)%nat then ascii_of_nat (n + 32) else c.

Definition fold_eq (name : list ascii) (field : string) : bool :=
  bool_decide (lower <$> name = lower <$> chars field).

Definition first_error (e1 e2 : option string) : option string :=
  match e1 with
  | Some _ => e1
  | None => e2
  end.

Definition into_string (v : value) (old : string) : string * option string :=
  match v with
  | JString s => (string_of_list_ascii s, None)
  | JNull => (old, None)
  | _ => (old, Some "json: cannot unmarshal into Go value of type string")
  end.

Fixpoint into_ApiKey_members (ms : list (list ascii * value)) (k : ApiKey)
  : ApiKey * option string :=
  match ms with
  | [] => (k, None)
  | (name, v) :: ms' =>
      let '(k, e) :=
        if fold_eq name "email" then
          let '(s, e) := into_string v (Email k) in
          (mkApiKey s (DeviceName k) (Key k), e)
        else if fold_eq name "device_name" then
          let '(s, e) := into_string v (DeviceName k) in
          (mkApiKey (Email k) s (Key k), e)
        else if fold_eq name "key" then
          let '(s, e) := into_string v (Key k) in
          (mkApiKey (Email k) (DeviceName k) s, e)
        else (k, None) in
      let '(k, e') := into_ApiKey_members ms' k in
      (k, first_error e e')
  end.

Definition into_ApiKey (v : value) (k : ApiKey) : ApiKey * option string :=
  match v with
  | JObject ms => into_ApiKey_members ms k
  | JNull => (k, None)
  | _ => (k, Some "json: cannot unmarshal into Go value of type main.ApiKey")
  end.

Fixpoint into_ApiKeys (vs : list value) : list ApiKey * option string :=
  match vs with
  | [] => ([], None)
  | v :: vs' =>
      let '(k, e) := into_ApiKey v ApiKey_zero in
      let '(ks, e') := into_ApiKeys vs' in
      (k :: ks, first_error e e')
  end.

Fixpoint into_AuthAccount_members (ms : list (list ascii * value))
    (a : AuthAccount) : AuthAccount * option string :=
  match ms with
  | [] => (a, None)
  | (name, v) :: ms' =>
      let '(a, e) :=
        if fold_eq name "Email" then
          let '(s, e) := into_string v (AccEmail a) in
          (mkAuthAccount s (ApiKeys a), e)
        else if fold_eq name "ApiKeys" then
          match v with
          | JArray vs =>
              let '(ks, e) := into_ApiKeys vs in (mkAuthAccount (AccEmail a) ks, e)
          | JNull => (mkAuthAccount (AccEmail a) [], None)
          | _ =>
              (a, Some "json: cannot unmarshal into Go value of type []main.ApiKey")
          end
        else (a, None) in
      let '(a, e') := into_AuthAccount_members ms' a in
      (a, first_error e e')
  end.

Definition into_AuthAccount (v : value) (a : AuthAccount)
  : AuthAccount * option string :=
  match v with
  | JObject ms => into_AuthAccount_members ms a
  | JNull => (a, None)
  | _ =>
      (a, Some "json: cannot unmarshal into Go value of type main.AuthAccount")
  end.

(** A text that is not JSON is refused before the target is touched. *)
Definition syntax_error : string := "json: syntax error".

Global Instance json_ApiKey : Json ApiKey := {|
  Marshal k := (string_of_list_ascii (write_ApiKey k), None);
  Unmarshal data k :=
    match read data with
    | Some v => into_ApiKey v k
    | None => (k, Some syntax_error)
    end
|}.

Global Instance json_AuthAccount : Json AuthAccount := {|
  Marshal a := (string_of_list_ascii (write_AuthAccount a), None);
  Unmarshal data a :=
    match read data with
    | Some v => into_AuthAccount v a
    | None => (a, Some syntax_error)
    end
|}.

End refjson.

(** ** Shapes of the [Authorization] header

    The header that is exactly [ApiKey <email>:<key>], and the header in
    which such a text occurs, on one line and with both parts non-empty. *)
Definition one_line (s : string) : Prop :=
  regexp.line_feed ∉ list_ascii_of_string s.



(** The split of a credential at its last colon: everything in front of
    the colon and everything behind it. *)
Fixpoint split_last_colon (s : list ascii)
  : option (list ascii * list ascii) :=
  match s with
  | [] => None
  | c :: s' =>
      match split_last_colon s' with
      | Some (front, back) => Some (c :: front, back)
      | None => if Ascii.eqb c ":" then Some ([], s') else None
      end
  end.

Definition split_at_last_colon (cred : string) : option (string * string) :=
  match split_last_colon (list_ascii_of_string cred) with
  | Some (front, back) =>
      Some (string_of_list_ascii front, string_of_list_ascii back)
  | None => None
  end.

(** The confirmation that [ActivateApiKey] answers with. *)
Definition activated (apiKey : ApiKey) : string :=
  "The api key for the device " +:+ DeviceName apiKey
  +:+ " has been activated!".

(** ** Stores and keys used in the examples *)

Definition phone_key : ApiKey := mkApiKey "a@b.com" "phone" "k1".
Definition pad_key : ApiKey := mkApiKey "a@b.com" "pad" "k2".
Definition new_phone_key : ApiKey := mkApiKey "a@b.com" "phone" "k3".
Definition ab_account : AuthAccount :=
  mkAuthAccount "a@b.com" [phone_key; pad_key].

Definition pending_phone : gmap string string :=
  {[ "tok-1" := (Marshal new_phone_key).1 ]}.

Definition auth_ab : gmap string string :=
  {[ "a@b.com" := (Marshal ab_account).1 ]}.

Definition blob_before : gmap string string :=
  {[ "a@b.com" := "old blob"; "c@d.org" := "other" ]}.

(** A handle of the auth namespace on which the read works and the write
    that follows fails. *)
Definition auth_ab_write_fails : leveldb.DB :=
  leveldb.mkDB auth_ab [None; Some "leveldb: read-only mode"] [].

Definition pending_garbage : gmap string string :=
  {[ "tok-9" := "not json" ]}.

(** A byte, as an integer. *)
Definition is_byte (b : Z) : Prop := (0 ≤ b < 256)%Z.

(** ** The shape of a version 4 UUID

    Thirty-six characters: lower-case hexadecimal digits, hyphens after
    the 8th, 12th, 16th and 20th digit, [4] as the 13th digit and one of
    [8], [9], [a], [b] as the 17th. *)
Definition is_hex (c : ascii) : bool :=
  let n := nat_of_ascii c in
  ((48 <=? n) && (n <=? 57)) || ((97 <=? n) && (n <=? 102)).

Definition is_variant (c : ascii) : bool :=
  Ascii.eqb c "8" || Ascii.eqb c "9" || Ascii.eqb c "a" || Ascii.eqb c "b".

Definition uuid_char (i : nat) (c : ascii) : bool :=
  if (i =? 8) || (i =? 13) || (i =? 18) || (i =? 23) then Ascii.eqb c "-"
  else if i =? 14 then Ascii.eqb c "4"
  else if i =? 19 then is_variant c
  else is_hex c.

Fixpoint uuid_chars (i : nat) (s : list ascii) : bool :=
  match s with
  | [] => true
  | c :: s' => uuid_char i c && uuid_chars (S i) s'
  end.

Definition uuid_shape (s : string) : bool :=
  (length (list_ascii_of_string s) =? 36)
  && uuid_chars 0 (list_ascii_of_string s).

(** ** The middleware [InjectBody] and the routes of [main] *)

(** The line feed that [http.Error] puts behind its message. *)
Definition lf : string := String (ascii_of_nat 10) "".

(** [http.Error(w, msg, code)]: the status and the body written. *)
Definition http_Error (msg : string) (code : nat) : nat * string :=
  (code, msg +:+ lf).

(** [InjectBody] (lines 73-82): [b] and [err] are what
    [ioutil.ReadAll(req.Body)] returns; the result is the response
    written, if any, and the [RequestBody] mapped into the context. *)
Definition InjectBody (b : string) (err : option error)
  : option (nat * string) * string :=
  let rb := b in
  (match err with
   | Some e =>
       Some (http_Error
               ("An error occured while reading the request body: "
                +:+ Error e)
               StatusInternalServerError)
   | None => None
   end, rb).

(** The three databases that [main] opens and maps (lines 330-353). *)
Record Stores := mkStores {
  ddb : leveldb.DB;      (* data *)
  adb : leveldb.DB;      (* auth *)
  acdb : leveldb.DB      (* act: the pending keys *)
}.

(** A request that one of the four routes of [main] takes (lines
    355-366), with what its handlers read from it and from the outside:
    the random bytes of the two [uuid] calls, the outcome of reading the
    body. *)
Inductive request :=
| POST_auth (email deviceName host : string) (rnd_key rnd_token : list Z)
| GET_activate (token : string)
| GET_root (authHeader : string)
| PUT_root (authHeader b : string) (err : option error).

(** The response: status and body, or a panic left to martini's
    recovery. *)
Inductive reply :=
| Reply (status : nat) (body : string)
| Panicked.

Definition reply_of (r : nat * string) : reply := Reply r.1 r.2.

(** The routes.  Martini runs the handlers of a route in order and stops
    behind the first one that has written a response; the values that a
    handler returns are written as status and body. *)
Section routes.
Context `{!Json ApiKey, !Json AuthAccount}.
Variables emailUser emailServer emailPort emailPassword : string.
Variable actEmailTemp : string → string → string → string.

(** [m.Get("/", Auth, GetData)] *)
Definition route_GET_root (authHeader : string) (s : Stores)
  : Stores * reply :=
  let '(adb', r) := Auth authHeader (adb s) in
  match r with
  | Refused status message =>
      (mkStores (ddb s) adb' (acdb s), reply_of (http_Error message status))
  | AuthPanic => (mkStores (ddb s) adb' (acdb s), Panicked)
  | Mapped acc =>
      let '(ddb', r) := GetData acc (ddb s) in
      (mkStores ddb' adb' (acdb s), reply_of r)
  end.

(** [m.Put("/", Auth, InjectBody, PutData)] *)
Definition route_PUT_root (authHeader b : string) (err : option error)
    (s : Stores) : Stores * reply :=
  let '(adb', r) := Auth authHeader (adb s) in
  match r with
  | Refused status message =>
      (mkStores (ddb s) adb' (acdb s), reply_of (http_Error message status))
  | AuthPanic => (mkStores (ddb s) adb' (acdb s), Panicked)
  | Mapped acc =>
      match InjectBody b err with
      | (Some written, _) =>
          (mkStores (ddb s) adb' (acdb s), reply_of written)
      | (None, rb) =>
          let '(ddb', r) := PutData acc rb (ddb s) in
          (mkStores ddb' adb' (acdb s), reply_of r)
      end
  end.

(** The server of [main]: one request against the databases and the mail
    server. *)
Definition serve (req : request) (s : Stores) (srv : smtp.Server)
  : Stores * smtp.Server * reply :=
  match req with
  | POST_auth email deviceName host rnd_key rnd_token =>
      let '(acdb', srv', _, r) :=
        RequestApiKey emailUser emailServer emailPort emailPassword
          actEmailTemp email deviceName host rnd_key rnd_token (acdb s) srv in
      (mkStores (ddb s) (adb s) acdb', srv', reply_of r)
  | GET_activate token =>
      let '(acdb', adb', r) := ActivateApiKey token (acdb s) (adb s) in
      (mkStores (ddb s) adb' acdb', srv, reply_of r)
  | GET_root authHeader =>
      let '(s', r) := route_GET_root authHeader s in (s', srv, r)
  | PUT_root authHeader b err =>
      let '(s', r) := route_PUT_root authHeader b err s in (s', srv, r)
  end.

End routes.

(** More keys and stores for the examples. *)
Definition watch_key : ApiKey := mkApiKey "a@b.com" "watch" "k4".
Definition laptop_key : ApiKey := mkApiKey "c@d.org" "laptop" "k5".

Definition pending_more : gmap string string :=
  {[ "tok-1" := (Marshal new_phone_key).1;
     "tok-3" := (Marshal watch_key).1;
     "tok-4" := (Marshal laptop_key).1 ]}.

Definition auth_ab_merged : gmap string string :=
  {[ "a@b.com" := (Marshal (SetKey ab_account new_phone_key)).1 ]}.

Definition stores_ab : Stores :=
  mkStores (leveldb.healthy blob_before) (leveldb.healthy auth_ab)
    (leveldb.healthy pending_more).

(** A handle of the pending namespace on which the next write fails. *)
Definition pending_write_fails : leveldb.DB :=
  leveldb.mkDB pending_phone [Some "leveldb: read-only mode"] [].

(** A template in the place of [templates/activate.txt]. *)
Definition activate_txt (email device_name activation_link : string)
  : string :=
  "Activate " +:+ device_name +:+ " for " +:+ email +:+ ": "
  +:+ activation_link.

Definition accepting_server : smtp.Server := smtp.mkServer None [].
Definition refusing_server : smtp.Server :=
  smtp.mkServer (Some "dial tcp: connection refused") [].

(** * Properties *)

(** ** Running the model *)

Example refjson_ApiKey_roundtrip :
  let k := mkApiKey "a@b.com" "phone" "k1" in
  Unmarshal (fst (Marshal k)) ApiKey_zero = (k, None).
Proof. vm_compute. reflexivity. Qed.

Example refjson_AuthAccount_roundtrip :
  let a := mkAuthAccount "a@b.com"
             [mkApiKey "a@b.com" "phone" "k1"; mkApiKey "a@b.com" "pad" "k<2>"] in
  Unmarshal (fst (Marshal a)) AuthAccount_zero = (a, None).
Proof. vm_compute. reflexivity. Qed.

Example refjson_garbage :
  Unmarshal "not json" ApiKey_zero = (ApiKey_zero, Some refjson.syntax_error).
Proof. vm_compute. reflexivity. Qed.

(** ** Account methods: lemmas *)

Section account_lemmas.
Implicit Types (keys : list ApiKey) (name key : string) (k : ApiKey).

Lemma Remove_loop_names_sub keys name x :
  x ∈ DeviceName <$> RemoveKeyForDevice_loop keys name →
  x ∈ DeviceName <$> keys.
Proof.
  induction keys as [|k keys IH]; simpl; [done|].
  destruct (String.eqb_spec (DeviceName k) name); simpl.
  - intros. by apply elem_of_cons; right.
  - rewrite !elem_of_cons. intros [->|?]; [by left|right; auto].
Qed.

Lemma Remove_loop_NoDup keys name :
  NoDup (DeviceName <$> keys) →
  NoDup (DeviceName <$> RemoveKeyForDevice_loop keys name).
Proof.
  induction keys as [|k keys IH]; simpl; [done|].
  rewrite NoDup_cons. intros [Hk Hnd].
  destruct (String.eqb_spec (DeviceName k) name); simpl; [done|].
  apply NoDup_cons; split; [|by apply IH].
  intros Hin. by apply Hk, (Remove_loop_names_sub _ name).
Qed.

Lemma Remove_loop_gone keys name :
  NoDup (DeviceName <$> keys) →
  name ∉ DeviceName <$> RemoveKeyForDevice_loop keys name.
Proof.
  induction keys as [|k keys IH]; simpl.
  - intros _. apply not_elem_of_nil.
  - rewrite NoDup_cons. intros [Hk Hnd].
    destruct (String.eqb_spec (DeviceName k) name) as [<-|Hne]; simpl.
    + done.
    + rewrite elem_of_cons. intros [?|?]; [done|by apply IH].
Qed.

Lemma Remove_loop_filter_other keys name :
  filter (λ k, DeviceName k ≠ name) (RemoveKeyForDevice_loop keys name)
  = filter (λ k, DeviceName k ≠ name) keys.
Proof.
  induction keys as [|k keys IH]; simpl; [done|].
  destruct (String.eqb_spec (DeviceName k) name) as [Heq|Hne]; simpl.
  - by rewrite filter_cons_False by (by intros ?).
  - by rewrite !filter_cons_True, IH by done.
Qed.

Lemma Validate_loop_true keys key :
  Validate_loop keys key = true ↔ ∃ k, k ∈ keys ∧ Key k = key.
Proof.
  induction keys as [|k keys IH]; simpl.
  - split; [done|]. intros (k & Hin & _). by apply elem_of_nil in Hin.
  - destruct (String.eqb_spec (Key k) key) as [Heq|Hne].
    + split; [|done]. intros _. exists k. split; [left|done].
    + rewrite IH. split.
      * intros (k' & Hin & Hk'). exists k'. split; [by right|done].
      * intros (k' & Hin & Hk'). apply elem_of_cons in Hin as [->|Hin];
          [done|by exists k'].
Qed.
End account_lemmas.

(** ** The database handle *)

Section leveldb_lemmas.
Import leveldb.
Implicit Types (db : DB) (key value : string).

Lemma fault_free_S n db :
  fault_free (S n) db = true →
  next_fault db = None ∧ ∀ o m, fault_free n (step o m db) = true.
Proof.
  unfold fault_free, next_fault, step. destruct (faults db) as [|[msg|] fs];
    simpl; intros Hff.
  - split; [done|]. intros _ _. by rewrite take_nil.
  - done.
  - split; [done|]. by intros _ _.
Qed.

Lemma Get_ok db key :
  next_fault db = None →
  Get db key =
    (step (OpGet key) (entries db) db,
     match entries db !! key with
     | Some value => (value, None)
     | None => ("", Some leveldb_ErrNotFound)
     end).
Proof. unfold Get. intros ->. by destruct (entries db !! key). Qed.

Lemma Put_ok db key value :
  next_fault db = None →
  Put db key value =
    (step (OpPut key value) (<[key := value]> (entries db)) db, None).
Proof. unfold Put. by intros ->. Qed.

Lemma Delete_ok db key :
  next_fault db = None →
  Delete db key = (step (OpDelete key) (delete key (entries db)) db, None).
Proof. unfold Delete. by intros ->. Qed.

Lemma Get_entries db key : entries (Get db key).1 = entries db.
Proof.
  unfold Get. destruct (next_fault db); [done|].
  by destruct (entries db !! key).
Qed.

Lemma Get_missing db key :
  entries db !! key = None →
  ∃ e, (Get db key).2 = ("", Some e).
Proof.
  unfold Get. intros ->. destruct (next_fault db); simpl; eauto.
Qed.
End leveldb_lemmas.

(** ** Key merges *)

Lemma SetKey_keeps_invariant a apiKey :
  one_key_per_device a → one_key_per_device (SetKey a apiKey).
Proof.
  unfold one_key_per_device, device_names. intros Hinv.
  simpl. rewrite fmap_app. simpl. apply NoDup_app. split_and!.
  - by apply Remove_loop_NoDup.
  - intros x Hx Hx'. apply list_elem_of_singleton in Hx' as ->.
    by apply (Remove_loop_gone (ApiKeys a) (DeviceName apiKey)).
  - apply NoDup_singleton.
Qed.

Lemma merge_all_keeps_invariant keys : ∀ a,
  one_key_per_device a → one_key_per_device (merge_all a keys).
Proof.
  unfold merge_all. induction keys as [|k keys IH]; simpl; [done|].
  intros a Ha. by apply IH, SetKey_keeps_invariant.
Qed.

(** C2. At most one DeviceKey per device name is an invariant of key
    merges: if no two keys of the account [a] share a device name, the
    same holds of [SetKey a apiKey] for every [apiKey], and of the account
    after any sequence [keys] of further merges. *)
Theorem SetKey_one_key_per_device (a : AuthAccount) (apiKey : ApiKey)
    (keys : list ApiKey) :
  one_key_per_device a →
  one_key_per_device (SetKey a apiKey)
  ∧ one_key_per_device (merge_all a (apiKey :: keys)).
Proof.
  intros Hinv. split.
  - by apply SetKey_keeps_invariant.
  - by apply merge_all_keeps_invariant.
Qed.

(** A fresh account has no keys, so every account built by activation
    satisfies the invariant. *)
Corollary fresh_account_one_key_per_device email keys :
  one_key_per_device (merge_all (mkAuthAccount email []) keys).
Proof.
  apply merge_all_keeps_invariant. unfold one_key_per_device, device_names.
  simpl. apply NoDup_nil_2.
Qed.

Lemma SetKey_one_key_per_device_witness :
  one_key_per_device ab_account
  ∧ one_key_per_device (SetKey ab_account new_phone_key)
  ∧ one_key_per_device (merge_all ab_account [new_phone_key; pad_key]).
Proof.
  assert (Hinv : one_key_per_device ab_account).
  { unfold one_key_per_device. compute_done. }
  split; [exact Hinv|].
  exact (SetKey_one_key_per_device ab_account new_phone_key [pad_key] Hinv).
Defined.

(** ** Activation of an unknown token *)

Section activation.
Context `{!Json ApiKey, !Json AuthAccount}.
Import leveldb.

(** C3. A token without an entry in the pending namespace: the answer is
    404 [Token not valid], the handle of the auth namespace is returned
    as it was (no operation on it), and the entries of the pending
    namespace are the same. *)
Theorem Activate_unknown_token (token : string) (actDB authDB : DB) :
  entries actDB !! token = None →
  ∃ actDB',
    ActivateApiKey token actDB authDB
      = (actDB', authDB, (StatusNotFound, "Token not valid"))
    ∧ entries actDB' = entries actDB.
Proof.
  intros Hnone. unfold ActivateApiKey.
  pose proof (Get_entries actDB token) as Hent.
  destruct (Get_missing actDB token Hnone) as [e He].
  destruct (Get actDB token) as [actDB' [data err]]; simpl in *.
  injection He as -> ->. by exists actDB'.
Qed.
End activation.

Lemma Activate_unknown_token_witness :
  leveldb.entries (leveldb.healthy pending_phone) !! "tok-2" = None
  ∧ ∃ actDB',
      ActivateApiKey "tok-2" (leveldb.healthy pending_phone)
        (leveldb.healthy auth_ab)
        = (actDB', leveldb.healthy auth_ab, (StatusNotFound, "Token not valid"))
      ∧ leveldb.entries actDB' = leveldb.entries (leveldb.healthy pending_phone).
Proof.
  split; [reflexivity|].
  apply (Activate_unknown_token "tok-2" (leveldb.healthy pending_phone)
           (leveldb.healthy auth_ab)).
  reflexivity.
Defined.

(** ** The data blob *)

Section data.
Import leveldb.
Implicit Types (acc : AuthAccount) (b : string) (db : DB).

(** Whenever [PutData] answers 200, the body is the request body, and it
    is what the store now holds for the account. *)
Lemma PutData_OK acc b db db1 body :
  PutData acc b db = (db1, (StatusOK, body)) →
  body = b ∧ entries db1 !! AccEmail acc = Some b.
Proof.
  unfold PutData, Put. destruct (next_fault db); simpl.
  - intros [=].
  - intros [= <- <-]. simpl. by rewrite lookup_insert_eq.
Qed.

(** [GetData] on a store that holds [b] for the account answers 200 with
    [b], unless the read itself fails. *)
Lemma GetData_stored acc b db :
  entries db !! AccEmail acc = Some b →
  next_fault db = None →
  GetData acc db = (step (OpGet (AccEmail acc)) (entries db) db, (StatusOK, b)).
Proof.
  intros Hb Hok. unfold GetData. rewrite (Get_ok _ _ Hok), Hb. done.
Qed.

(** C7. Round trip of the blob: when neither the write nor the read is
    hit by a storage failure, [PutData acc b] answers 200 with body [b],
    the store holds [b] for the account's email, and the [GetData acc]
    that follows answers 200 with exactly [b]. *)
Theorem PutData_then_GetData acc b db :
  fault_free 2 db = true →
  ∃ db1 db2,
    PutData acc b db = (db1, (StatusOK, b))
    ∧ entries db1 !! AccEmail acc = Some b
    ∧ GetData acc db1 = (db2, (StatusOK, b)).
Proof.
  intros Hff. apply fault_free_S in Hff as [Hput Hff].
  pose (db1 := step (OpPut (AccEmail acc) b) (<[AccEmail acc := b]> (entries db)) db).
  specialize (Hff (OpPut (AccEmail acc) b) (<[AccEmail acc := b]> (entries db))).
  apply fault_free_S in Hff as [Hget _].
  assert (Hb : entries db1 !! AccEmail acc = Some b)
    by (simpl; apply lookup_insert_eq).
  exists db1, (step (OpGet (AccEmail acc)) (entries db1) db1).
  split_and!; [|done|by apply GetData_stored].
  unfold PutData. by rewrite (Put_ok _ _ _ Hput).
Qed.
End data.

Lemma PutData_then_GetData_witness :
  leveldb.fault_free 2 (leveldb.healthy blob_before) = true
  ∧ ∃ db1 db2,
      PutData ab_account "{x:1}" (leveldb.healthy blob_before)
        = (db1, (StatusOK, "{x:1}"))
      ∧ leveldb.entries db1 !! AccEmail ab_account = Some "{x:1}"
      ∧ GetData ab_account db1 = (db2, (StatusOK, "{x:1}")).
Proof.
  split; [reflexivity|].
  apply (PutData_then_GetData ab_account "{x:1}" (leveldb.healthy blob_before)).
  reflexivity.
Defined.

(** ** Requesting a key *)

(** The answer does not wait for the mail: the same request, with a
    server that refuses and with one that accepts. *)
Example RequestApiKey_mail_refused :
  let run srv :=
    RequestApiKey "padlock@x.org" "smtp.x.org" "587" "secret" activate_txt
      "a@b.com" "phone" "x.org" [1; 2; 3]%Z [4; 5; 6]%Z (leveldb.healthy ∅)
      srv in
  (run refusing_server).2 = (run accepting_server).2
  ∧ (run refusing_server).2
    = (StatusOK,
       (Marshal (mkApiKey "a@b.com" "phone"
                   "01020300-0000-4000-8000-000000000000")).1)
  ∧ leveldb.entries (run refusing_server).1.1.1
      !! "04050600-0000-4000-8000-000000000000"
    = Some (run refusing_server).2.2
  ∧ smtp.delivered (run refusing_server).1.1.2 = []
  ∧ length (smtp.delivered (run accepting_server).1.1.2) = 1.
Proof. vm_compute. split_and!; reflexivity. Qed.

(** ** Activation of a pending key *)

Lemma filter_device_absent (keys : list ApiKey) (name : string) :
  name ∉ DeviceName <$> keys →
  filter (λ k, DeviceName k = name) keys = [].
Proof.
  induction keys as [|k keys IH]; simpl; [done|].
  rewrite not_elem_of_cons. intros [Hne Hnin].
  rewrite filter_cons_False by done. by apply IH.
Qed.

Lemma SetKey_other_devices (a : AuthAccount) (apiKey : ApiKey) :
  filter (λ k, DeviceName k ≠ DeviceName apiKey) (ApiKeys (SetKey a apiKey))
  = filter (λ k, DeviceName k ≠ DeviceName apiKey) (ApiKeys a).
Proof.
  simpl. rewrite filter_app, Remove_loop_filter_other.
  rewrite filter_cons_False by (by intros ?). simpl. apply app_nil_r.
Qed.

Lemma SetKey_this_device (a : AuthAccount) (apiKey : ApiKey) :
  one_key_per_device a →
  filter (λ k, DeviceName k = DeviceName apiKey) (ApiKeys (SetKey a apiKey))
  = [apiKey].
Proof.
  intros Hinv. simpl. rewrite filter_app.
  rewrite filter_device_absent by (by apply Remove_loop_gone).
  by rewrite filter_cons_True.
Qed.

Section activation_run.
Context `{!Json ApiKey, !Json AuthAccount}.
Import leveldb.

(** C8. Activation of a token whose key is for a device the account
    already has a key for, when no storage operation fails: the answer
    is 200, the pending entry is deleted, and the account saved under
    the same email is [SetKey acc apiKey].  In it the email is the
    same, the keys of every other device are the same keys in the same
    order, and, when the account had one key per device, the only key of
    this device is the new one. *)
Theorem Activate_replaces_one_device
    (token data adata sdata : string) (uerr : option string)
    (apiKey : ApiKey) (acc : AuthAccount) (actDB authDB : DB) :
  fault_free 2 actDB = true →
  fault_free 2 authDB = true →
  entries actDB !! token = Some data →
  Unmarshal data ApiKey_zero = (apiKey, uerr) →
  entries authDB !! Email apiKey = Some adata →
  Unmarshal adata AuthAccount_zero = (acc, None) →
  DeviceName apiKey ∈ device_names acc →
  Marshal (SetKey acc apiKey) = (sdata, None) →
  ∃ actDB' authDB',
    ActivateApiKey token actDB authDB
      = (actDB', authDB', (StatusOK, activated apiKey))
    ∧ entries authDB' = <[AccEmail acc := sdata]> (entries authDB)
    ∧ entries actDB' = delete token (entries actDB)
    ∧ AccEmail (SetKey acc apiKey) = AccEmail acc
    ∧ filter (λ k, DeviceName k ≠ DeviceName apiKey)
        (ApiKeys (SetKey acc apiKey))
      = filter (λ k, DeviceName k ≠ DeviceName apiKey) (ApiKeys acc)
    ∧ (∀ k, k ∈ ApiKeys acc → DeviceName k ≠ DeviceName apiKey →
            k ∈ ApiKeys (SetKey acc apiKey))
    ∧ (one_key_per_device acc →
       filter (λ k, DeviceName k = DeviceName apiKey)
         (ApiKeys (SetKey acc apiKey)) = [apiKey]).
Proof.
  intros Hact Hauth Htok Hkey Hacc Hdec _ Hsave.
  apply fault_free_S in Hact as [Hact1 Hact2].
  apply fault_free_S in Hauth as [Hauth1 Hauth2].
  unfold ActivateApiKey.
  rewrite (Get_ok _ _ Hact1), Htok, Hkey.
  unfold FetchAuthAccount.
  rewrite (Get_ok _ _ Hauth1), Hacc, Hdec.
  rewrite bool_decide_false by (by intros [? _]).
  rewrite bool_decide_false by done.
  unfold SaveAuthAccount. rewrite Hsave.
  set (authDB1 := step _ _ authDB). set (actDB1 := step _ _ actDB).
  assert (Hput : next_fault authDB1 = None)
    by (by destruct (fault_free_S 0 authDB1 (Hauth2 _ _))).
  assert (Hdel : next_fault actDB1 = None)
    by (by destruct (fault_free_S 0 actDB1 (Hact2 _ _))).
  rewrite (Put_ok _ _ _ Hput), (Delete_ok _ _ Hdel).
  eexists _, _. split_and!; try done.
  - apply SetKey_other_devices.
  - intros k Hk Hne.
    assert (Hin : k ∈ filter (λ k, DeviceName k ≠ DeviceName apiKey)
                      (ApiKeys (SetKey acc apiKey))).
    { rewrite SetKey_other_devices. by apply list_elem_of_filter. }
    by apply list_elem_of_filter in Hin as [_ ?].
  - apply SetKey_this_device.
Qed.
End activation_run.

Lemma Activate_replaces_one_device_witness :
  ∃ actDB' authDB',
    ActivateApiKey "tok-1" (leveldb.healthy pending_phone)
      (leveldb.healthy auth_ab)
      = (actDB', authDB',
         (StatusOK, "The api key for the device phone has been activated!"))
    ∧ leveldb.entries authDB' !! "a@b.com"
      = Some (Marshal (mkAuthAccount "a@b.com" [pad_key; new_phone_key])).1
    ∧ leveldb.entries actDB' !! "tok-1" = None.
Proof.
  destruct (Activate_replaces_one_device "tok-1"
              (Marshal new_phone_key).1 (Marshal ab_account).1
              (Marshal (SetKey ab_account new_phone_key)).1 None
              new_phone_key ab_account
              (leveldb.healthy pending_phone) (leveldb.healthy auth_ab))
    as (actDB' & authDB' & Hrun & Hauth & Hact & _);
    [reflexivity|reflexivity|reflexivity|vm_compute; reflexivity|reflexivity
    |vm_compute; reflexivity|compute_done|reflexivity|].
  exists actDB', authDB'. rewrite Hrun, Hauth, Hact. split_and!.
  - reflexivity.
  - rewrite lookup_insert_eq. vm_compute. reflexivity.
  - apply lookup_delete_eq.
Defined.

(** ** Authentication *)

Section authentication.
Context `{!Json AuthAccount}.
Import leveldb.

Lemma MatchString_nil (r : regexp.Regexp) (h : string) :
  regexp.MatchString r h = false ↔ regexp.FindStringSubmatch r h = [].
Proof.
  unfold regexp.MatchString, regexp.FindStringSubmatch.
  destruct (regexp.find r (list_ascii_of_string h)) as [[m groups]|].
  - rewrite bool_decide_eq_false. split; [|done]. intros []. eauto.
  - rewrite bool_decide_eq_false. split; [done|]. by intros _ [? ?].
Qed.

(** [Auth] on a header without a match: refused, the handle untouched. *)
Lemma Auth_no_match (h : string) (db : DB) :
  regexp.FindStringSubmatch re h = [] →
  Auth h db
  = (db, Refused StatusUnauthorized "No valid authorization header provided").
Proof.
  intros Hnil. unfold Auth. apply MatchString_nil in Hnil. by rewrite Hnil.
Qed.

(** [Auth] on a header with a match goes on with the two groups. *)
Lemma Auth_match (h whole email key : string) (db : DB) :
  regexp.FindStringSubmatch re h = [whole; email; key] →
  Auth h db =
    let '(db, (authAccount, err)) := FetchAuthAccount email db in
    match err with
    | Some e =>
        if decide (e = leveldb_ErrNotFound) then
          (db, Refused StatusUnauthorized
                 ("User " +:+ email +:+ " does not exists"))
        else
          (db, Refused StatusInternalServerError
                 ("Database error: " +:+ Error e))
    | None =>
        if negb (Validate authAccount key) then
          (db, Refused StatusUnauthorized "The provided key was not valid")
        else (db, Mapped authAccount)
    end.
Proof.
  intros Hm. unfold Auth.
  destruct (regexp.MatchString re h) eqn:HM.
  - simpl. by rewrite Hm.
  - apply MatchString_nil in HM. congruence.
Qed.

(** C5, as the code has it.  For a header in which the pattern finds
    [email] and [key], and a read that does not fail: without an entry
    for [email] the answer is 401 with the message [User <email> does
    not exists]; with an account none of whose keys is [key] it is 401
    with the message [The provided key was not valid].  The status is
    the same, the two messages are never equal. *)
Theorem Auth_failures_same_status_distinct_message
    (h whole email key : string) (db : DB) :
  regexp.FindStringSubmatch re h = [whole; email; key] →
  next_fault db = None →
  (entries db !! email = None →
   (Auth h db).2
   = Refused StatusUnauthorized ("User " +:+ email +:+ " does not exists"))
  ∧ (∀ data acc,
       entries db !! email = Some data →
       Unmarshal data AuthAccount_zero = (acc, None) →
       (∀ k, k ∈ ApiKeys acc → Key k ≠ key) →
       (Auth h db).2
       = Refused StatusUnauthorized "The provided key was not valid")
  ∧ "User " +:+ email +:+ " does not exists"
    ≠ "The provided key was not valid".
Proof.
  intros Hm Hok. split_and!.
  - intros Hnone. rewrite (Auth_match _ _ _ _ _ Hm). unfold FetchAuthAccount.
    rewrite (Get_ok _ _ Hok), Hnone. simpl. done.
  - intros data acc Hsome Hdec Hkeys.
    rewrite (Auth_match _ _ _ _ _ Hm). unfold FetchAuthAccount.
    rewrite (Get_ok _ _ Hok), Hsome, Hdec.
    assert (Hv : Validate acc key = false).
    { apply not_true_is_false. intros Hv.
      apply Validate_loop_true in Hv as (k & Hin & Hk). by eapply Hkeys. }
    by rewrite Hv.
  - simpl. discriminate.
Qed.
End authentication.

Lemma Auth_failures_same_status_distinct_message_witness :
  (Auth "ApiKey a@b.com:wrong" (leveldb.healthy auth_ab)).2
  = Refused StatusUnauthorized "The provided key was not valid".
Proof.
  destruct (Auth_failures_same_status_distinct_message
              "ApiKey a@b.com:wrong" "ApiKey a@b.com:wrong" "a@b.com" "wrong"
              (leveldb.healthy auth_ab)) as (_ & Hbad & _);
    [vm_compute; reflexivity|reflexivity|].
  apply (Hbad (Marshal ab_account).1 ab_account);
    [reflexivity|vm_compute; reflexivity|].
  intros k Hk. simpl in Hk.
  apply elem_of_cons in Hk as [->|Hk]; [discriminate|].
  apply elem_of_cons in Hk as [->|Hk]; [discriminate|].
  by apply elem_of_nil in Hk.
Defined.

(** C5, as the specification has it, fails: with no account for
    [a@b.com] the message names the missing user, with an account and a
    wrong key it does not; the two responses differ. *)
Lemma Auth_tells_missing_account_from_wrong_key :
  (Auth "ApiKey a@b.com:wrong" (leveldb.healthy ∅)).2
  = Refused StatusUnauthorized "User a@b.com does not exists"
  ∧ (Auth "ApiKey a@b.com:wrong" (leveldb.healthy auth_ab)).2
    = Refused StatusUnauthorized "The provided key was not valid"
  ∧ (Auth "ApiKey a@b.com:wrong" (leveldb.healthy ∅)).2
    ≠ (Auth "ApiKey a@b.com:wrong" (leveldb.healthy auth_ab)).2.
Proof.
  assert (H1 : (Auth "ApiKey a@b.com:wrong" (leveldb.healthy ∅)).2
               = Refused StatusUnauthorized "User a@b.com does not exists")
    by (vm_compute; reflexivity).
  assert (H2 : (Auth "ApiKey a@b.com:wrong" (leveldb.healthy auth_ab)).2
               = Refused StatusUnauthorized "The provided key was not valid")
    by (vm_compute; reflexivity).
  split_and!; [done|done|]. rewrite H1, H2. discriminate.
Qed.

(** ** Activation: what the code does on the two failures *)

Section activation_failures.
Context `{!Json ApiKey, !Json AuthAccount}.
Import leveldb.

Lemma FetchAuthAccount_entries (email : string) (db : DB) :
  entries (FetchAuthAccount email db).1 = entries db.
Proof.
  unfold FetchAuthAccount. pose proof (Get_entries db email) as Hent.
  destruct (Get db email) as [db' [data [e|]]]; simpl in *; [done|].
  by destruct (Unmarshal data AuthAccount_zero) as [acc [msg|]].
Qed.

(** Whatever the codec: once the pending key is read and the account is
    fetched or found missing, a save that fails is not reported.  The
    answer is the 200 of a completed activation, the auth namespace has
    the entries it had, and the pending entry is deleted. *)
Lemma Activate_drops_save_error
    (token data msg : string) (uerr ferr : option error) (uerr' : option string)
    (apiKey : ApiKey) (acc : AuthAccount) (actDB authDB authDB1 : DB) :
  fault_free 2 actDB = true →
  entries actDB !! token = Some data →
  Unmarshal data ApiKey_zero = (apiKey, uerr') →
  FetchAuthAccount (Email apiKey) authDB = (authDB1, (acc, ferr)) →
  ferr = None ∨ ferr = Some leveldb_ErrNotFound →
  next_fault authDB1 = Some msg →
  ∃ actDB' authDB',
    ActivateApiKey token actDB authDB
    = (actDB', authDB', (StatusOK, activated apiKey))
    ∧ entries authDB' = entries authDB
    ∧ entries actDB' = delete token (entries actDB).
Proof.
  intros Hact Htok Hkey Hfetch Hferr Hfault.
  apply fault_free_S in Hact as [Hact1 Hact2].
  pose proof (FetchAuthAccount_entries (Email apiKey) authDB) as Hent.
  unfold ActivateApiKey.
  rewrite (Get_ok _ _ Hact1), Htok, Hkey, Hfetch. rewrite Hfetch in Hent.
  simpl in Hent.
  rewrite bool_decide_false by (intros [? ?]; by destruct Hferr).
  set (acc' := SetKey _ apiKey). set (actDB1 := step _ _ actDB).
  assert (Hdel : next_fault actDB1 = None)
    by (by destruct (fault_free_S 0 actDB1 (Hact2 _ _))).
  assert (Hsave : entries (SaveAuthAccount acc' authDB1).1 = entries authDB1).
  { unfold SaveAuthAccount, Put. destruct (Marshal acc') as [sdata [m|]];
      [done|]. by rewrite Hfault. }
  destruct (SaveAuthAccount acc' authDB1) as [authDB2 serr].
  rewrite (Delete_ok _ _ Hdel). eexists _, _. split_and!; [done| |done].
  simpl in Hsave. by rewrite Hsave.
Qed.
(** Whatever the codec: an error of [Unmarshal] on the pending entry does
    not stop the activation.  With the key [apiKey] that the failed
    decoding leaves behind and no account under its email, a fresh account
    with that one key is saved, the pending entry is deleted and the
    answer is 200. *)
Lemma Activate_drops_Unmarshal_error
    (token data sdata msg : string) (apiKey : ApiKey) (actDB authDB : DB) :
  fault_free 2 actDB = true →
  fault_free 2 authDB = true →
  entries actDB !! token = Some data →
  Unmarshal data ApiKey_zero = (apiKey, Some msg) →
  entries authDB !! Email apiKey = None →
  Marshal (mkAuthAccount (Email apiKey) [apiKey]) = (sdata, None) →
  ∃ actDB' authDB',
    ActivateApiKey token actDB authDB
    = (actDB', authDB', (StatusOK, activated apiKey))
    ∧ entries authDB' = <[Email apiKey := sdata]> (entries authDB)
    ∧ entries actDB' = delete token (entries actDB).
Proof.
  intros Hact Hauth Htok Hkey Hnone Hsave.
  apply fault_free_S in Hact as [Hact1 Hact2].
  apply fault_free_S in Hauth as [Hauth1 Hauth2].
  unfold ActivateApiKey.
  rewrite (Get_ok _ _ Hact1), Htok, Hkey.
  unfold FetchAuthAccount. rewrite (Get_ok _ _ Hauth1), Hnone.
  rewrite bool_decide_false by (by intros [_ ?]).
  rewrite bool_decide_true by done.
  unfold SaveAuthAccount, SetKey. simpl. rewrite Hsave.
  set (authDB1 := step _ _ authDB). set (actDB1 := step _ _ actDB).
  assert (Hput : next_fault authDB1 = None)
    by (by destruct (fault_free_S 0 authDB1 (Hauth2 _ _))).
  assert (Hdel : next_fault actDB1 = None)
    by (by destruct (fault_free_S 0 actDB1 (Hact2 _ _))).
  rewrite (Put_ok _ _ _ Hput), (Delete_ok _ _ Hdel).
  by eexists _, _.
Qed.
End activation_failures.

(** C4 on the code.  The pending key [new_phone_key] is activated while
    the save of the account fails and the delete of the pending entry
    works: the error of the save is overwritten by the result of the
    delete, the answer is 200, the account in the store still has the old
    key only, and the pending entry is gone. *)
Theorem Activate_save_failure_answers_OK :
  ∃ actDB' authDB',
    ActivateApiKey "tok-1" (leveldb.healthy pending_phone) auth_ab_write_fails
    = (actDB', authDB',
       (StatusOK, "The api key for the device phone has been activated!"))
    ∧ leveldb.log authDB'
      = [leveldb.OpPut "a@b.com"
           (Marshal (mkAuthAccount "a@b.com" [pad_key; new_phone_key])).1;
         leveldb.OpGet "a@b.com"]
    ∧ leveldb.entries authDB' = auth_ab
    ∧ leveldb.entries actDB' !! "tok-1" = None.
Proof.
  eexists _, _. split_and!.
  - vm_compute. reflexivity.
  - vm_compute. reflexivity.
  - reflexivity.
  - reflexivity.
Qed.

(** The same failure on the other write is reported. *)
Example Activate_delete_failure_answers_500 :
  (ActivateApiKey "tok-1"
     (leveldb.mkDB pending_phone [None; Some "leveldb: read-only mode"] [])
     (leveldb.healthy auth_ab)).2
  = (StatusInternalServerError, "Database error: leveldb: read-only mode").
Proof. vm_compute. reflexivity. Qed.

(** C6 on the code.  The pending entry of the token is not JSON: the error
    of [Unmarshal] is dropped, the key stays [ApiKey{}], and activation
    goes on with it: the answer is 200 for a device without a name, an
    account with the empty email and that one empty key is saved, and the
    pending entry is deleted. *)
Theorem Activate_undecodable_entry_answers_OK :
  Unmarshal "not json" ApiKey_zero = (ApiKey_zero, Some refjson.syntax_error)
  ∧ ∃ actDB' authDB',
      ActivateApiKey "tok-9" (leveldb.healthy pending_garbage)
        (leveldb.healthy auth_ab)
      = (actDB', authDB',
         (StatusOK, "The api key for the device  has been activated!"))
      ∧ leveldb.entries (leveldb.healthy auth_ab) !! "" = None
      ∧ leveldb.entries authDB' !! ""
        = Some (Marshal (mkAuthAccount "" [ApiKey_zero])).1
      ∧ leveldb.entries actDB' !! "tok-9" = None.
Proof.
  split; [vm_compute; reflexivity|].
  eexists _, _. split_and!.
  - vm_compute. reflexivity.
  - reflexivity.
  - vm_compute. reflexivity.
  - reflexivity.
Qed.

(** ** The pattern of [Auth] *)

Section regexp_lemmas.
Import regexp.
Implicit Types (s lit e k pre post m : list ascii)
  (g : list (list ascii)) (cont : list ascii → option found).

Lemma strip_app lit s : strip lit (lit ++ s) = Some s.
Proof.
  induction lit as [|c lit IH]; simpl; [by destruct s|].
  by rewrite decide_True.
Qed.

Lemma strip_Some lit s s' : strip lit s = Some s' → s = lit ++ s'.
Proof.
  revert s. induction lit as [|c lit IH]; intros s; simpl.
  - destruct s; by intros [= ->].
  - destruct s as [|d s]; [done|]. case_decide as Hcd; [|done].
    subst d. intros Hs. by rewrite (IH _ Hs).
Qed.

Lemma dot_run_le s : dot_run s ≤ length s.
Proof.
  induction s as [|c s IH]; simpl; [done|]. case_decide; simpl; lia.
Qed.

Lemma dot_run_take s j : j ≤ dot_run s → line_feed ∉ take j s.
Proof.
  revert j. induction s as [|c s IH]; intros j; simpl.
  - intros _. rewrite take_nil. apply not_elem_of_nil.
  - destruct j as [|j]; [intros _; apply not_elem_of_nil|].
    case_decide as Hc; [lia|]. intros Hj. simpl.
    apply not_elem_of_cons. split; [done|]. apply IH. lia.
Qed.

Lemma dot_run_app s post :
  line_feed ∉ s → dot_run (s ++ post) = length s + dot_run post.
Proof.
  induction s as [|c s IH]; simpl; [done|].
  rewrite not_elem_of_cons. intros [Hc Hs].
  rewrite decide_False by done. by rewrite IH.
Qed.

Lemma dot_run_all s : line_feed ∉ s → dot_run s = length s.
Proof.
  intros Hs. rewrite <- (app_nil_r s) at 1.
  rewrite dot_run_app by done. simpl. lia.
Qed.

(** The run stops at the end of the text or in front of a line feed. *)
Lemma dot_run_drop s : dot_run (drop (dot_run s) s) = 0.
Proof.
  induction s as [|c s IH]; simpl; [done|].
  case_decide as Hc; simpl; [|done]. by rewrite decide_True.
Qed.

(** What [greedy] returns is the longest of the candidates. *)
Lemma greedy_Some cont s n m g :
  greedy cont s n = Some (m, g) →
  ∃ j m' g',
    1 ≤ j ≤ n ∧ cont (drop j s) = Some (m', g')
    ∧ m = take j s ++ m' ∧ g = take j s :: g'
    ∧ ∀ j', j < j' ≤ n → cont (drop j' s) = None.
Proof.
  induction n as [|n IH]; simpl; [done|].
  destruct (cont (drop (S n) s)) as [[m' g']|] eqn:Hc.
  - intros [= <- <-]. exists (S n), m', g'. split_and!; try done; lia.
  - intros Hg. destruct (IH Hg) as (j & m' & g' & Hj & Hcj & -> & -> & Hmax).
    exists j, m', g'. split_and!; try done; try lia.
    intros j' Hj'. destruct (decide (j' = S n)) as [->|]; [done|].
    apply Hmax. lia.
Qed.

Lemma greedy_longest cont s n j m' g' :
  1 ≤ j ≤ n →
  cont (drop j s) = Some (m', g') →
  (∀ j', j < j' ≤ n → cont (drop j' s) = None) →
  greedy cont s n = Some (take j s ++ m', take j s :: g').
Proof.
  intros Hj Hc Hmax. induction n as [|n IH]; simpl; [lia|].
  destruct (decide (j = S n)) as [->|Hne].
  - by rewrite Hc.
  - rewrite Hmax by lia. apply IH; [lia|]. intros j' Hj'. apply Hmax. lia.
Qed.


(** The match found is the first from the left. *)
Lemma find_Some r s m g :
  find r s = Some (m, g) →
  ∃ pre s', s = pre ++ s' ∧ match_here r s' = Some (m, g)
    ∧ ∀ i, i < length pre → match_here r (drop i s) = None.
Proof.
  induction s as [|c s IH]; simpl.
  - destruct (match_here r []) as [f|] eqn:Hm; [|done].
    intros [= ->]. exists [], []. split_and!; [done..|]. simpl. lia.
  - destruct (match_here r (c :: s)) as [f|] eqn:Hm.
    + intros [= ->]. exists [], (c :: s). split_and!; [done..|]. simpl. lia.
    + intros Hf. destruct (IH Hf) as (pre & s' & -> & Hs' & Hleft).
      exists (c :: pre), s'. split_and!; [done..|].
      intros [|i] Hi; simpl in *; [done|]. apply Hleft. lia.
Qed.


Lemma find_here r s f : match_here r s = Some f → find r s = Some f.
Proof. intros Hm. destruct s; simpl; by rewrite Hm. Qed.
End regexp_lemmas.

Section pattern_lemmas.
Import regexp.
Implicit Types (s e k pre post m : list ascii) (g : list (list ascii)).

Local Notation "'A'" := (list_ascii_of_string "ApiKey ").
Local Notation "'colon'" := (":"%char : ascii).
Local Notation "'tail_re'" := [Lit ":"; Group "key"].

Lemma colon_not_line_feed : colon ≠ line_feed.
Proof. done. Qed.

Lemma match_key s :
  match_here [Group "key"] s =
    match dot_run s with
    | 0 => None
    | S _ => Some (take (dot_run s) s, [take (dot_run s) s])
    end.
Proof.
  simpl. destruct (dot_run s) as [|n]; simpl; [done|].
  by rewrite app_nil_r.
Qed.

Lemma match_tail_colon k :
  match_here tail_re (colon :: k) =
    match dot_run k with
    | 0 => None
    | S _ => Some (colon :: take (dot_run k) k, [take (dot_run k) k])
    end.
Proof.
  change (match_here tail_re (colon :: k))
    with (match match_here [Group "key"] k with
          | Some (m, groups) => Some ([colon] ++ m, groups)
          | None => None
          end).
  rewrite match_key. by destruct (dot_run k).
Qed.

Lemma match_tail_Some s m g :
  match_here tail_re s = Some (m, g) →
  ∃ k, s = colon :: k ∧ dot_run k ≠ 0
       ∧ m = colon :: take (dot_run k) k ∧ g = [take (dot_run k) k].
Proof.
  destruct s as [|c k]; [done|].
  destruct (decide (colon = c)) as [<-|Hne].
  - rewrite match_tail_colon. destruct (dot_run k) eqn:Hk; [done|].
    intros [= <- <-]. exists k. by rewrite Hk.
  - simpl. by rewrite decide_False.
Qed.

Lemma match_tail_no_colon s : colon ∉ s → match_here tail_re s = None.
Proof.
  destruct s as [|c k]; [done|]. rewrite not_elem_of_cons. intros [Hc _].
  simpl. by rewrite decide_False.
Qed.

(** The shape of every match of the pattern. *)
Lemma match_re_Some s m g :
  match_here re s = Some (m, g) →
  ∃ e k post,
    s = A ++ e ++ colon :: k ++ post
    ∧ m = A ++ e ++ colon :: k ∧ g = [e; k]
    ∧ e ≠ [] ∧ k ≠ [] ∧ (line_feed ∉ e) ∧ (line_feed ∉ k)
    ∧ dot_run post = 0.
Proof.
  unfold re.
  change (match_here (Lit "ApiKey " :: Group "email" :: tail_re) s)
    with (match strip A s with
          | Some s' =>
              match greedy (match_here tail_re) s' (dot_run s') with
              | Some (m, groups) => Some (A ++ m, groups)
              | None => None
              end
          | None => None
          end).
  destruct (strip A s) as [s'|] eqn:Hstrip; [|done].
  apply strip_Some in Hstrip as ->.
  destruct (greedy _ s' _) as [[m1 g1]|] eqn:Hg; [|done].
  intros [= <- <-].
  apply greedy_Some in Hg as (j & m' & g' & Hj & Hk & -> & -> & _).
  apply match_tail_Some in Hk as (k & Hdrop & Hrun & -> & ->).
  exists (take j s'), (take (dot_run k) k), (drop (dot_run k) k).
  assert (Hs' : s' = take j s' ++ colon :: take (dot_run k) k
                     ++ drop (dot_run k) k).
  { rewrite take_drop, <- Hdrop. by rewrite take_drop. }
  split_and!.
  - by rewrite <- Hs'.
  - done.
  - done.
  - intros Hnil. apply (f_equal length) in Hnil.
    rewrite length_take in Hnil. pose proof (dot_run_le s'). simpl in Hnil. lia.
  - intros Hnil. apply (f_equal length) in Hnil.
    rewrite length_take in Hnil. pose proof (dot_run_le k). simpl in Hnil. lia.
  - apply dot_run_take. lia.
  - by apply dot_run_take.
  - apply dot_run_drop.
Qed.


(** When the key has no colon, the split is at the last colon. *)
Lemma match_re_last_colon e k :
  e ≠ [] → k ≠ [] → line_feed ∉ e → line_feed ∉ k → colon ∉ k →
  match_here re (A ++ e ++ colon :: k)
  = Some (A ++ e ++ colon :: k, [e; k]).
Proof.
  intros He Hk Hle Hlk Hck. unfold re.
  change (match_here (Lit "ApiKey " :: Group "email" :: tail_re)
            (A ++ e ++ colon :: k))
    with (match strip A (A ++ e ++ colon :: k) with
          | Some s' =>
              match greedy (match_here tail_re) s' (dot_run s') with
              | Some (m, groups) => Some (A ++ m, groups)
              | None => None
              end
          | None => None
          end).
  rewrite strip_app.
  assert (Hrun : dot_run (e ++ colon :: k) = length (e ++ colon :: k)).
  { apply dot_run_all. rewrite elem_of_app, elem_of_cons.
    intros [?|[?|?]]; done. }
  rewrite (greedy_longest _ _ _ (length e) (colon :: k) [k]).
  - by rewrite take_app_length.
  - rewrite Hrun, length_app. destruct e; [done|]. simpl. lia.
  - rewrite drop_app_length, match_tail_colon.
    rewrite (dot_run_all k Hlk), firstn_all. by destruct k.
  - intros j' Hj'. apply match_tail_no_colon.
    rewrite drop_app_ge by lia.
    destruct (j' - length e) as [|i] eqn:Hi; [lia|]. simpl.
    intros Hin. apply Hck. by eapply subseteq_drop.
Qed.
End pattern_lemmas.

(** ** The pattern on strings *)

Section header_lemmas.
Import regexp.
Implicit Types (h e k pre post : string).

Local Notation "'chars'" := list_ascii_of_string.
Local Notation "'text'" := string_of_list_ascii.

Lemma chars_app (a b : string) : chars (a +:+ b) = chars a ++ chars b.
Proof. induction a as [|c a IH]; simpl; [done|]. by rewrite IH. Qed.

Lemma text_app (a b : list ascii) : text (a ++ b) = text a +:+ text b.
Proof. induction a as [|c a IH]; simpl; [done|]. by rewrite IH. Qed.

Lemma string_app_assoc (a b c : string) : (a +:+ b) +:+ c = a +:+ b +:+ c.
Proof.
  induction a as [|x a IH]; [done|].
  change (String x ((a +:+ b) +:+ c) = String x (a +:+ b +:+ c)).
  by f_equal.
Qed.

Lemma chars_nil (a : string) : chars a = [] ↔ a = "".
Proof. by destruct a. Qed.

Lemma text_nil (a : list ascii) : text a = "" ↔ a = [].
Proof. by destruct a. Qed.

(** What [FindStringSubmatch] returns for the pattern of [Auth]: nothing,
    or the leftmost text of the shape of the pattern and its two
    parts. *)
Lemma FindStringSubmatch_re h :
  FindStringSubmatch re h = []
  ∨ ∃ pre e k post,
      h = pre +:+ "ApiKey " +:+ e +:+ ":" +:+ k +:+ post
      ∧ FindStringSubmatch re h = ["ApiKey " +:+ e +:+ ":" +:+ k; e; k]
      ∧ e ≠ "" ∧ k ≠ "" ∧ one_line e ∧ one_line k.
Proof.
  unfold FindStringSubmatch.
  destruct (find re (chars h)) as [[m g]|] eqn:Hfind; [right|by left].
  apply find_Some in Hfind as (pre & s' & Hh & Hm & _).
  apply match_re_Some in Hm
    as (e & k & post & -> & -> & -> & He & Hk & Hle & Hlk & _).
  exists (text pre), (text e), (text k), (text post).
  unfold one_line. rewrite !list_ascii_of_string_of_list_ascii.
  rewrite !text_nil. split_and!; try done.
  - rewrite <- (string_of_list_ascii_of_string h), Hh.
    by repeat (rewrite text_app; simpl).
  - simpl. by rewrite text_app.
Qed.


(** [Auth] indexes [matches] within its bounds. *)
Lemma Auth_no_panic `{!Json AuthAccount} h db : (Auth h db).2 ≠ AuthPanic.
Proof.
  destruct (FindStringSubmatch_re h)
    as [Hnil|(pre & e & k & post & _ & Hm & _)].
  - by rewrite (Auth_no_match _ _ Hnil).
  - rewrite (Auth_match _ _ _ _ _ Hm).
    destruct (FetchAuthAccount e db) as [db' [acc [err|]]]; simpl.
    + by case_decide.
    + by destruct (Validate acc k).
Qed.
End header_lemmas.

(** The split at the last colon, on lists and on strings. *)
Lemma split_last_colon_None (s : list ascii) :
  split_last_colon s = None → (":"%char : ascii) ∉ s.
Proof.
  induction s as [|c s IH]; simpl; [intros _; apply not_elem_of_nil|].
  destruct (split_last_colon s) as [[front back]|]; [done|].
  destruct (Ascii.eqb_spec c ":") as [->|Hne]; [done|].
  intros _. apply not_elem_of_cons. split; [done|by apply IH].
Qed.

Lemma split_last_colon_Some (s front back : list ascii) :
  split_last_colon s = Some (front, back) →
  s = front ++ (":"%char : ascii) :: back ∧ (":"%char : ascii) ∉ back.
Proof.
  revert front. induction s as [|c s IH]; intros front; simpl; [done|].
  destruct (split_last_colon s) as [[front' back']|] eqn:Hs.
  - intros [= <- <-]. destruct (IH front' eq_refl) as [-> Hback]. done.
  - destruct (Ascii.eqb_spec c ":") as [->|Hne]; [|done].
    intros [= <- <-]. split; [done|]. by apply split_last_colon_None.
Qed.

Lemma split_at_last_colon_Some (cred e k : string) :
  split_at_last_colon cred = Some (e, k) →
  cred = e +:+ ":" +:+ k ∧ (":"%char : ascii) ∉ list_ascii_of_string k.
Proof.
  unfold split_at_last_colon.
  destruct (split_last_colon (list_ascii_of_string cred))
    as [[front back]|] eqn:Hs; [|done].
  intros [= <- <-]. apply split_last_colon_Some in Hs as [Hs Hback].
  rewrite list_ascii_of_string_of_list_ascii. split; [|done].
  rewrite <- (string_of_list_ascii_of_string cred), Hs.
  by rewrite text_app.
Qed.

Lemma FindStringSubmatch_colon_free_key (e k : string) :
  e ≠ "" → k ≠ "" → one_line e → one_line k →
  (":"%char : ascii) ∉ list_ascii_of_string k →
  regexp.FindStringSubmatch re ("ApiKey " +:+ e +:+ ":" +:+ k)
  = ["ApiKey " +:+ e +:+ ":" +:+ k; e; k].
Proof.
  intros He Hk Hle Hlk Hck. unfold regexp.FindStringSubmatch.
  rewrite !chars_app.
  change (list_ascii_of_string ":" ++ list_ascii_of_string k)
    with ((":"%char : ascii) :: list_ascii_of_string k).
  rewrite (find_here _ _ _
             (match_re_last_colon (list_ascii_of_string e)
                (list_ascii_of_string k) ltac:(by rewrite chars_nil)
                ltac:(by rewrite chars_nil) Hle Hlk Hck)).
  simpl. rewrite text_app. simpl.
  by rewrite !string_of_list_ascii_of_string.
Qed.

(** C10, as the code has it.  For a credential on one line whose last
    colon has text on both sides, whatever other colons stand in front of
    it, the pattern splits at that colon: in the header [ApiKey <cred>]
    the email captured is everything in front of the last colon and the
    key captured is everything behind it. *)
Theorem FindStringSubmatch_last_colon (cred e k : string) :
  split_at_last_colon cred = Some (e, k) →
  e ≠ "" → k ≠ "" → one_line cred →
  regexp.FindStringSubmatch re ("ApiKey " +:+ cred)
  = ["ApiKey " +:+ cred; e; k].
Proof.
  intros Hsplit He Hk Hline.
  apply split_at_last_colon_Some in Hsplit as [-> Hck].
  unfold one_line in Hline. rewrite !chars_app in Hline.
  apply FindStringSubmatch_colon_free_key; try done.
  - unfold one_line. intros Hin. apply Hline, elem_of_app. by left.
  - unfold one_line. intros Hin. apply Hline, elem_of_app. right.
    apply elem_of_app. by right.
Qed.

Lemma FindStringSubmatch_last_colon_witness :
  regexp.FindStringSubmatch re "ApiKey a:b:c" = ["ApiKey a:b:c"; "a:b"; "c"].
Proof.
  apply (FindStringSubmatch_last_colon "a:b:c" "a:b" "c"); try done.
  unfold one_line. compute_done.
Defined.

(** C10, as stated, fails when the credential ends in a colon: in
    [ApiKey a:b:] the split at the last colon is [a:b] and the empty
    text, while the pattern captures [a] and [b:]. *)
Lemma FindStringSubmatch_not_last_colon :
  split_at_last_colon "a:b:" = Some ("a:b", "")
  ∧ regexp.FindStringSubmatch re "ApiKey a:b:" = ["ApiKey a:b:"; "a"; "b:"]
  ∧ ¬ ∃ whole, regexp.FindStringSubmatch re "ApiKey a:b:"
               = [whole; "a:b"; ""].
Proof.
  assert (Hfind : regexp.FindStringSubmatch re "ApiKey a:b:"
                  = ["ApiKey a:b:"; "a"; "b:"]) by (vm_compute; reflexivity).
  split_and!; [vm_compute; reflexivity|done|].
  rewrite Hfind. intros [whole [=]].
Qed.

(** ** When [Auth] lets a request through *)

Section auth_success.
Context `{!Json AuthAccount}.
Import leveldb.

End auth_success.



(** * Further properties of the code *)

(** ** The keys of an account *)

Section key_lemmas.
Implicit Types (keys front back : list ApiKey) (name : string) (k : ApiKey).

Lemma KeyForDevice_loop_None keys name :
  KeyForDevice_loop keys name = None ↔ name ∉ DeviceName <$> keys.
Proof.
  induction keys as [|k keys IH]; simpl.
  - split; [intros _; apply not_elem_of_nil|done].
  - rewrite not_elem_of_cons.
    destruct (String.eqb_spec (DeviceName k) name) as [Heq|Hne].
    + split; [done|]. by intros [? _].
    + rewrite IH. split; [by intros ?; split|by intros [_ ?]].
Qed.

Lemma KeyForDevice_loop_app keys back name :
  KeyForDevice_loop (keys ++ back) name =
    match KeyForDevice_loop keys name with
    | Some k => Some k
    | None => KeyForDevice_loop back name
    end.
Proof.
  induction keys as [|k keys IH]; simpl; [done|].
  by destruct (String.eqb (DeviceName k) name).
Qed.

Lemma KeyForDevice_loop_Remove_other keys name other :
  other ≠ name →
  KeyForDevice_loop (RemoveKeyForDevice_loop keys name) other
  = KeyForDevice_loop keys other.
Proof.
  intros Hne. induction keys as [|k keys IH]; simpl; [done|].
  destruct (String.eqb_spec (DeviceName k) name) as [Heq|Hk]; simpl.
  - destruct (String.eqb_spec (DeviceName k) other); [congruence|done].
  - by rewrite IH.
Qed.

Lemma Remove_loop_absent keys name :
  name ∉ DeviceName <$> keys → RemoveKeyForDevice_loop keys name = keys.
Proof.
  induction keys as [|k keys IH]; simpl; [done|].
  rewrite not_elem_of_cons. intros [Hne Hnin].
  destruct (String.eqb_spec (DeviceName k) name); [congruence|].
  by rewrite IH.
Qed.

Lemma Remove_loop_last keys k :
  DeviceName k ∉ DeviceName <$> keys →
  RemoveKeyForDevice_loop (keys ++ [k]) (DeviceName k) = keys.
Proof.
  induction keys as [|k' keys IH]; simpl.
  - intros _. by rewrite String.eqb_refl.
  - rewrite not_elem_of_cons. intros [Hne Hnin].
    destruct (String.eqb_spec (DeviceName k') (DeviceName k)); [congruence|].
    by rewrite IH.
Qed.

Lemma Remove_loop_sub keys name k :
  k ∈ RemoveKeyForDevice_loop keys name → k ∈ keys.
Proof.
  induction keys as [|k' keys IH]; simpl; [done|].
  destruct (String.eqb (DeviceName k') name).
  - intros. by right.
  - rewrite !elem_of_cons. intros [->|?]; [by left|right; auto].
Qed.

Lemma Remove_loop_elem_name keys name k :
  NoDup (DeviceName <$> keys) →
  k ∈ RemoveKeyForDevice_loop keys name → DeviceName k ≠ name.
Proof.
  intros Hnd Hin Heq. subst name.
  apply (Remove_loop_gone keys (DeviceName k) Hnd).
  by apply list_elem_of_fmap_2.
Qed.
End key_lemmas.

(** X1. Lookup after a merge: in an account with one key per device,
    [KeyForDevice] after [SetKey a k] finds [k] for the device of [k] and
    finds for every other device what it found before. *)
Theorem KeyForDevice_SetKey (a : AuthAccount) (k : ApiKey) (name : string) :
  one_key_per_device a →
  KeyForDevice (SetKey a k) name
  = if String.eqb name (DeviceName k) then Some k else KeyForDevice a name.
Proof.
  intros Hinv. unfold KeyForDevice. simpl.
  rewrite KeyForDevice_loop_app. simpl.
  destruct (String.eqb_spec name (DeviceName k)) as [->|Hne].
  - rewrite String.eqb_refl.
    by rewrite (proj2 (KeyForDevice_loop_None _ _)
                  (Remove_loop_gone _ _ Hinv)).
  - rewrite KeyForDevice_loop_Remove_other by done.
    destruct (String.eqb_spec (DeviceName k) name); [congruence|].
    by destruct (KeyForDevice_loop (ApiKeys a) name).
Qed.

Lemma KeyForDevice_SetKey_witness :
  KeyForDevice (SetKey ab_account new_phone_key) "phone" = Some new_phone_key
  ∧ KeyForDevice (SetKey ab_account new_phone_key) "pad" = Some pad_key.
Proof.
  assert (Hinv : one_key_per_device ab_account)
    by (unfold one_key_per_device; compute_done).
  split.
  - exact (KeyForDevice_SetKey ab_account new_phone_key "phone" Hinv).
  - exact (KeyForDevice_SetKey ab_account new_phone_key "pad" Hinv).
Defined.

(** X2. [RemoveKeyForDevice] removes the key that [KeyForDevice] finds, the
    first one of the device, and nothing else; when [KeyForDevice] finds
    none, the account stays as it is. *)
Theorem RemoveKeyForDevice_first (a : AuthAccount) (name : string) :
  match KeyForDevice a name with
  | None => RemoveKeyForDevice a name = a
  | Some k =>
      ∃ front back,
        ApiKeys a = front ++ k :: back
        ∧ DeviceName k = name
        ∧ (name ∉ DeviceName <$> front)
        ∧ RemoveKeyForDevice a name = mkAuthAccount (AccEmail a) (front ++ back)
  end.
Proof.
  destruct a as [email keys]. unfold KeyForDevice, RemoveKeyForDevice. simpl.
  induction keys as [|k keys IH]; simpl; [done|].
  destruct (String.eqb_spec (DeviceName k) name) as [Heq|Hne].
  - exists [], keys. split_and!; try done. apply not_elem_of_nil.
  - destruct (KeyForDevice_loop keys name) as [k'|].
    + destruct IH as (front & back & -> & Hk' & Hfront & [= Hrem]).
      exists (k :: front), back. simpl. split_and!; try done.
      * rewrite not_elem_of_cons. done.
      * by rewrite Hrem.
    + injection IH as ->. done.
Qed.

(** X3. In an account with one key per device, no key of the device is
    left after [RemoveKeyForDevice], and the invariant still holds. *)
Theorem RemoveKeyForDevice_gone (a : AuthAccount) (name : string) :
  one_key_per_device a →
  KeyForDevice (RemoveKeyForDevice a name) name = None
  ∧ one_key_per_device (RemoveKeyForDevice a name).
Proof.
  intros Hinv. split.
  - apply KeyForDevice_loop_None. simpl. by apply Remove_loop_gone.
  - unfold one_key_per_device, device_names. simpl.
    by apply Remove_loop_NoDup.
Qed.

Lemma RemoveKeyForDevice_gone_witness :
  KeyForDevice (RemoveKeyForDevice ab_account "phone") "phone" = None
  ∧ one_key_per_device (RemoveKeyForDevice ab_account "phone").
Proof.
  apply (RemoveKeyForDevice_gone ab_account "phone").
  unfold one_key_per_device. compute_done.
Defined.

Lemma SetKey_keeps_twice (a : AuthAccount) (k : ApiKey) :
  one_key_per_device a → SetKey (SetKey a k) k = SetKey a k.
Proof.
  intros Hinv. unfold SetKey at 1. unfold RemoveKeyForDevice.
  change (ApiKeys (SetKey a k))
    with (RemoveKeyForDevice_loop (ApiKeys a) (DeviceName k) ++ [k]).
  rewrite Remove_loop_last by (by apply Remove_loop_gone). done.
Qed.

(** X4. Merging the same key twice is merging it once, in an account with
    one key per device: a replayed activation leaves the account as the
    first one made it. *)
Theorem SetKey_idempotent (a : AuthAccount) (k : ApiKey) :
  one_key_per_device a → SetKey (SetKey a k) k = SetKey a k.
Proof. apply SetKey_keeps_twice. Qed.

Lemma SetKey_idempotent_witness :
  SetKey (SetKey ab_account new_phone_key) new_phone_key
  = SetKey ab_account new_phone_key.
Proof.
  apply (SetKey_idempotent ab_account new_phone_key).
  unfold one_key_per_device. compute_done.
Defined.

(** X5. After [SetKey a k] the secret of [k] is valid for the account, and
    so is still the secret of every key of another device. *)
Theorem Validate_SetKey (a : AuthAccount) (k : ApiKey) :
  Validate (SetKey a k) (Key k) = true
  ∧ ∀ k', k' ∈ ApiKeys a → DeviceName k' ≠ DeviceName k →
          Validate (SetKey a k) (Key k') = true.
Proof.
  split.
  - apply Validate_loop_true. exists k. split; [|done].
    simpl. apply elem_of_app. right. by apply list_elem_of_singleton.
  - intros k' Hin Hne. apply Validate_loop_true. exists k'. split; [|done].
    assert (Hf : k' ∈ filter (λ x, DeviceName x ≠ DeviceName k)
                        (ApiKeys (SetKey a k))).
    { rewrite SetKey_other_devices. by apply list_elem_of_filter. }
    by apply list_elem_of_filter in Hf as [_ ?].
Qed.

(** X6. Replacing the key of a device revokes the old one: in an account
    with one key per device, once [SetKey a k] has replaced the key [old]
    of the same device, the secret of [old] is no longer valid, unless it
    is also the secret of [k] or of another key of the account. *)
Theorem Validate_replaced_key (a : AuthAccount) (k old : ApiKey) :
  one_key_per_device a →
  old ∈ ApiKeys a →
  DeviceName old = DeviceName k →
  Key k ≠ Key old →
  (∀ k', k' ∈ ApiKeys a → k' ≠ old → Key k' ≠ Key old) →
  Validate (SetKey a k) (Key old) = false.
Proof.
  intros Hinv Hold Hname Hk Hothers. apply not_true_is_false. intros Hv.
  apply Validate_loop_true in Hv as (k' & Hin & Hkey). simpl in Hin.
  apply elem_of_app in Hin as [Hin|Hin].
  - apply (Hothers k'); [by eapply Remove_loop_sub| |done].
    intros ->. by apply (Remove_loop_elem_name _ _ _ Hinv Hin).
  - apply list_elem_of_singleton in Hin as ->. done.
Qed.

Lemma Validate_replaced_key_witness :
  Validate ab_account "k1" = true
  ∧ Validate (SetKey ab_account new_phone_key) "k1" = false.
Proof.
  split; [reflexivity|].
  apply (Validate_replaced_key ab_account new_phone_key phone_key).
  - unfold one_key_per_device. compute_done.
  - compute_done.
  - reflexivity.
  - discriminate.
  - intros k' Hin Hne. simpl in Hin.
    apply elem_of_cons in Hin as [->|Hin]; [done|].
    apply elem_of_cons in Hin as [->|Hin]; [discriminate|].
    by apply elem_of_nil in Hin.
Defined.

(** ** The generated identifiers *)

Section uuid_lemmas.
Local Open Scope Z_scope.

(** A property of bytes that holds of each of the 256 holds of all. *)
Lemma byte_cases (P : Z → bool) :
  forallb P (Z.of_nat <$> seq 0 256) = true →
  ∀ b, is_byte b → P b = true.
Proof.
  intros Hall b Hb. rewrite forallb_forall in Hall. apply Hall.
  apply list_elem_of_In, list_elem_of_fmap. exists (Z.to_nat b).
  split; [unfold is_byte in Hb; lia|].
  apply elem_of_seq. unfold is_byte in Hb. lia.
Qed.

Lemma hex_byte_is_hex b :
  is_byte b →
  is_hex (hex_digit (Z.shiftr b 4)) && is_hex (hex_digit (Z.land b 15))
  = true.
Proof.
  revert b.
  apply (byte_cases (λ b, is_hex (hex_digit (Z.shiftr b 4))
                          && is_hex (hex_digit (Z.land b 15)))).
  vm_compute. reflexivity.
Qed.

Lemma version_byte b :
  is_byte b →
  let b' := Z.lor (Z.land b 0x0f) 0x40 in
  Ascii.eqb (hex_digit (Z.shiftr b' 4)) "4"
  && is_hex (hex_digit (Z.land b' 15)) = true.
Proof.
  revert b.
  apply (byte_cases (λ b, let b' := Z.lor (Z.land b 0x0f) 0x40 in
                          Ascii.eqb (hex_digit (Z.shiftr b' 4)) "4"
                          && is_hex (hex_digit (Z.land b' 15)))).
  vm_compute. reflexivity.
Qed.

Lemma variant_byte b :
  is_byte b →
  let b' := Z.lor (Z.land b 0x3f) 0x80 in
  is_variant (hex_digit (Z.shiftr b' 4))
  && is_hex (hex_digit (Z.land b' 15)) = true.
Proof.
  revert b.
  apply (byte_cases (λ b, let b' := Z.lor (Z.land b 0x3f) 0x80 in
                          is_variant (hex_digit (Z.shiftr b' 4))
                          && is_hex (hex_digit (Z.land b' 15)))).
  vm_compute. reflexivity.
Qed.

(** The buffer of [uuid]: sixteen bytes, whatever was read. *)
Lemma uuid_buffer (rnd : list Z) :
  let b := take 16 (((λ x, x mod 256) <$> rnd) ++ replicate 16 0) in
  length b = 16%nat ∧ Forall is_byte b.
Proof.
  cbv zeta. split.
  - rewrite length_take, length_app, length_replicate. lia.
  - apply Forall_take, Forall_app. split.
    + apply Forall_fmap, Forall_true. intros x. unfold compose, is_byte.
      apply Z.mod_pos_bound. lia.
    + apply Forall_replicate. unfold is_byte. lia.
Qed.
End uuid_lemmas.

Lemma uuid_of_buffer (rnd : list Z) :
  ∃ b0 b1 b2 b3 b4 b5 b6 b7 b8 b9 b10 b11 b12 b13 b14 b15,
    Forall is_byte [b0;b1;b2;b3;b4;b5;b6;b7;b8;b9;b10;b11;b12;b13;b14;b15]
    ∧ take 16 (((λ x, x mod 256)%Z <$> rnd) ++ replicate 16 0%Z)
      = [b0;b1;b2;b3;b4;b5;b6;b7;b8;b9;b10;b11;b12;b13;b14;b15].
Proof.
  destruct (uuid_buffer rnd) as [Hlen Hall].
  destruct (take 16 _)
    as [|b0 [|b1 [|b2 [|b3 [|b4 [|b5 [|b6 [|b7 [|b8 [|b9 [|b10 [|b11 [|b12
       [|b13 [|b14 [|b15 [|? ?]]]]]]]]]]]]]]]]];
    try discriminate Hlen.
  by exists b0, b1, b2, b3, b4, b5, b6, b7, b8, b9, b10, b11, b12, b13,
            b14, b15.
Qed.

Lemma uuid_shape_of_buffer (rnd : list Z) : uuid_shape (uuid rnd) = true.
Proof.
  destruct (uuid_of_buffer rnd)
    as (b0 & b1 & b2 & b3 & b4 & b5 & b6 & b7 & b8 & b9 & b10 & b11 & b12
        & b13 & b14 & b15 & Hall & Hb).
  unfold uuid. rewrite Hb. clear Hb rnd.
  repeat (apply Forall_cons in Hall as [? Hall]).
  cbv -[hex_digit Z.shiftr Z.land Z.lor is_hex is_variant Ascii.eqb andb].
  repeat match goal with
  | H : is_byte ?b |- _ =>
      let Ha := fresh in let Hb := fresh in
      destruct (andb_prop _ _ (hex_byte_is_hex b H)) as [Ha Hb];
      rewrite ?Ha, ?Hb; clear Ha Hb;
      destruct (andb_prop _ _ (version_byte b H)) as [Ha Hb];
      cbv zeta in Ha, Hb; rewrite ?Ha, ?Hb; clear Ha Hb;
      destruct (andb_prop _ _ (variant_byte b H)) as [Ha Hb];
      cbv zeta in Ha, Hb; rewrite ?Ha, ?Hb; clear Ha Hb H
  end.
  reflexivity.
Qed.

(** X7. Whatever the random bytes, and however many of them were read,
    [uuid] returns a version 4 UUID: 36 characters, lower-case hexadecimal
    digits in five groups of 8, 4, 4, 4 and 12 joined by hyphens, the
    third group starting with [4] and the fourth with [8], [9], [a] or
    [b]. *)
Theorem uuid_is_version_4 (rnd : list Z) : uuid_shape (uuid rnd) = true.
Proof. apply uuid_shape_of_buffer. Qed.

(** A text of that shape has no colon and no line feed, and is not
    empty. *)
Lemma uuid_char_plain (i : nat) (c : ascii) :
  uuid_char i c = true → c ≠ ":"%char ∧ c ≠ regexp.line_feed.
Proof.
  intros Hc. split; intros ->; revert Hc; unfold uuid_char;
    by repeat case_match.
Qed.

Lemma uuid_chars_plain (s : list ascii) : ∀ i,
  uuid_chars i s = true →
  ((":"%char : ascii) ∉ s) ∧ (regexp.line_feed ∉ s).
Proof.
  induction s as [|c s IH]; intros i; simpl.
  - intros _. split; apply not_elem_of_nil.
  - intros [Hc Hs]%andb_prop. apply uuid_char_plain in Hc as [Hc1 Hc2].
    destruct (IH _ Hs) as [Hs1 Hs2].
    split; apply not_elem_of_cons; by split.
Qed.

Lemma uuid_plain (rnd : list Z) :
  uuid rnd ≠ "" ∧ one_line (uuid rnd)
  ∧ (":"%char : ascii) ∉ list_ascii_of_string (uuid rnd).
Proof.
  pose proof (uuid_shape_of_buffer rnd) as Hshape.
  unfold uuid_shape in Hshape. apply andb_prop in Hshape as [Hlen Hchars].
  apply uuid_chars_plain in Hchars as [Hcolon Hlf].
  split_and!; [|done|done].
  intros Hnil. rewrite Hnil in Hlen. discriminate Hlen.
Qed.

(** X8. The credential of a generated key is read back as it was put
    together: for an email that is not empty and on one line, whatever
    colons it has, and any key that [uuid] returns, [Auth]'s pattern finds
    in [ApiKey <email>:<key>] exactly that email and that key. *)
Theorem FindStringSubmatch_generated_key (email : string) (rnd : list Z) :
  email ≠ "" → one_line email →
  regexp.FindStringSubmatch re ("ApiKey " +:+ email +:+ ":" +:+ uuid rnd)
  = ["ApiKey " +:+ email +:+ ":" +:+ uuid rnd; email; uuid rnd].
Proof.
  intros He Hline. destruct (uuid_plain rnd) as (Hk & Hkline & Hcolon).
  by apply FindStringSubmatch_colon_free_key.
Qed.

Lemma FindStringSubmatch_generated_key_witness :
  regexp.FindStringSubmatch re
    ("ApiKey " +:+ "a:b@c.com" +:+ ":" +:+ uuid [7; 300; 9]%Z)
  = ["ApiKey " +:+ "a:b@c.com" +:+ ":" +:+ uuid [7; 300; 9]%Z; "a:b@c.com";
     uuid [7; 300; 9]%Z].
Proof.
  apply (FindStringSubmatch_generated_key "a:b@c.com" [7; 300; 9]%Z).
  - discriminate.
  - unfold one_line. compute_done.
Defined.

(** ** What [Auth] does to the store and how it answers *)

Section auth_effects.
Context `{!Json AuthAccount}.
Import leveldb.

Lemma FetchAuthAccount_log (email : string) (db : DB) :
  log (FetchAuthAccount email db).1 = OpGet email :: log db.
Proof.
  unfold FetchAuthAccount, Get.
  destruct (next_fault db); simpl; [done|].
  destruct (entries db !! email) as [data|]; simpl; [|done].
  by destruct (Unmarshal data AuthAccount_zero) as [acc [msg|]].
Qed.

Lemma Auth_cases (h : string) (db : DB) :
  (regexp.FindStringSubmatch re h = []
   ∧ Auth h db
     = (db, Refused StatusUnauthorized
              "No valid authorization header provided"))
  ∨ ∃ whole email key,
      regexp.FindStringSubmatch re h = [whole; email; key]
      ∧ (Auth h db).1 = (FetchAuthAccount email db).1
      ∧ match (FetchAuthAccount email db).2 with
        | (_, Some leveldb_ErrNotFound) =>
            (Auth h db).2
            = Refused StatusUnauthorized
                ("User " +:+ email +:+ " does not exists")
        | (_, Some (Err msg)) =>
            (Auth h db).2
            = Refused StatusInternalServerError ("Database error: " +:+ msg)
        | (acc, None) =>
            (Auth h db).2
            = if Validate acc key then Mapped acc
              else Refused StatusUnauthorized "The provided key was not valid"
        end.
Proof.
  destruct (FindStringSubmatch_re h)
    as [Hnil|(pre & e & k & post & _ & Hm & _)].
  - left. split; [done|]. by apply Auth_no_match.
  - right. exists ("ApiKey " +:+ e +:+ ":" +:+ k), e, k. split; [done|].
    rewrite (Auth_match _ _ _ _ _ Hm).
    destruct (FetchAuthAccount e db) as [db' [acc [[|msg]|]]]; simpl;
      [done|done|].
    by destruct (Validate acc k).
Qed.

(** X9. [Auth] only reads: the entries of the auth namespace are the same
    after it, and it performs no operation on the store or a single [Get],
    under the email that the pattern found in the header. *)
Theorem Auth_reads_once (h : string) (db : DB) :
  entries (Auth h db).1 = entries db
  ∧ (log (Auth h db).1 = log db
     ∨ ∃ whole email key,
         regexp.FindStringSubmatch re h = [whole; email; key]
         ∧ log (Auth h db).1 = OpGet email :: log db).
Proof.
  destruct (Auth_cases h db)
    as [[_ ->]|(whole & email & key & Hm & -> & _)].
  - split; [done|by left].
  - split; [apply FetchAuthAccount_entries|].
    right. exists whole, email, key. split; [done|].
    apply FetchAuthAccount_log.
Qed.

(** X10. [Auth] answers with an account, with 401 or with 500, and with
    nothing else: its two accesses to [matches] are within bounds. *)
Theorem Auth_answers (h : string) (db : DB) :
  (∃ acc, (Auth h db).2 = Mapped acc)
  ∨ (∃ message, (Auth h db).2 = Refused StatusUnauthorized message)
  ∨ (∃ message, (Auth h db).2 = Refused StatusInternalServerError message).
Proof.
  destruct (Auth_cases h db)
    as [[_ ->]|(whole & email & key & _ & _ & Hr)].
  - right. left. eauto.
  - destruct (FetchAuthAccount email db).2 as [acc [[|msg]|]].
    + right. left. eauto.
    + right. right. eauto.
    + rewrite Hr. destruct (Validate acc key); [left|right; left]; eauto.
Qed.

(** X11. A failure of the store is not taken for a missing account: when
    the pattern finds an email and a key, and the read fails or the entry
    read does not decode, [Auth] answers 500 with the error in the
    message, not 401. *)
Theorem Auth_storage_error (h whole email key : string) (db : DB) :
  regexp.FindStringSubmatch re h = [whole; email; key] →
  (∀ msg, next_fault db = Some msg →
     (Auth h db).2
     = Refused StatusInternalServerError ("Database error: " +:+ msg))
  ∧ (∀ data acc msg,
       next_fault db = None →
       entries db !! email = Some data →
       Unmarshal data AuthAccount_zero = (acc, Some msg) →
       (Auth h db).2
       = Refused StatusInternalServerError ("Database error: " +:+ msg)).
Proof.
  intros Hm. split.
  - intros msg Hfault. rewrite (Auth_match _ _ _ _ _ Hm).
    unfold FetchAuthAccount, Get. by rewrite Hfault.
  - intros data acc msg Hok Hdata Hdec. rewrite (Auth_match _ _ _ _ _ Hm).
    unfold FetchAuthAccount. by rewrite (Get_ok _ _ Hok), Hdata, Hdec.
Qed.
End auth_effects.

Lemma Auth_storage_error_witness :
  (Auth "ApiKey a@b.com:k1"
     (leveldb.mkDB auth_ab [Some "leveldb: closed"] [])).2
  = Refused StatusInternalServerError "Database error: leveldb: closed".
Proof.
  destruct (Auth_storage_error "ApiKey a@b.com:k1" "ApiKey a@b.com:k1"
              "a@b.com" "k1"
              (leveldb.mkDB auth_ab [Some "leveldb: closed"] []))
    as [Hfault _]; [vm_compute; reflexivity|].
  apply Hfault. reflexivity.
Defined.

(** ** Activation: the account saved, the token, the failures *)

Section activation_effects.
Context `{!Json ApiKey, !Json AuthAccount}.
Import leveldb.

(** The run of [ActivateApiKey] behind a pending entry that was read. *)
Lemma Activate_read (token data : string) (uerr : option string)
    (apiKey : ApiKey) (actDB authDB : DB) :
  next_fault actDB = None →
  entries actDB !! token = Some data →
  Unmarshal data ApiKey_zero = (apiKey, uerr) →
  ActivateApiKey token actDB authDB =
    let actDB1 := step (OpGet token) (entries actDB) actDB in
    let '(authDB1, (acc, err)) := FetchAuthAccount (Email apiKey) authDB in
    if bool_decide (err ≠ None ∧ err ≠ Some leveldb_ErrNotFound) then
      (actDB1, authDB1,
       (StatusInternalServerError, "Database error: " +:+ Sprint err))
    else
      let acc :=
        if bool_decide (err = Some leveldb_ErrNotFound)
        then mkAuthAccount (Email apiKey) []
        else acc in
      let '(authDB2, _) := SaveAuthAccount (SetKey acc apiKey) authDB1 in
      let '(actDB2, err) := Delete actDB1 token in
      match err with
      | Some e =>
          (actDB2, authDB2,
           (StatusInternalServerError, "Database error: " +:+ Error e))
      | None => (actDB2, authDB2, (StatusOK, activated apiKey))
      end.
Proof.
  intros Hok Hdata Hdec. unfold ActivateApiKey.
  by rewrite (Get_ok _ _ Hok), Hdata, Hdec.
Qed.

Lemma SaveAuthAccount_entries (a : AuthAccount) (db : DB) :
  entries (SaveAuthAccount a db).1 = entries db
  ∨ entries (SaveAuthAccount a db).1
    = <[AccEmail a := (Marshal a).1]> (entries db).
Proof.
  unfold SaveAuthAccount, Put. destruct (Marshal a) as [data [msg|]]; simpl;
    [by left|].
  destruct (next_fault db); simpl; [by left|by right].
Qed.

Lemma Delete_entries (db : DB) (key : string) :
  entries (Delete db key).1 = entries db
  ∨ entries (Delete db key).1 = delete key (entries db).
Proof. unfold Delete. destruct (next_fault db); simpl; [by left|by right]. Qed.

(** X12. What an activation can do to the two namespaces, in every run:
    the pending namespace keeps its entries or loses the entry of the
    token, and nothing else; the auth namespace keeps its entries or gets
    the encoding of one account, stored under the email of that
    account. *)
Theorem Activate_frame (token : string) (actDB authDB : DB) :
  (entries (ActivateApiKey token actDB authDB).1.1 = entries actDB
   ∨ entries (ActivateApiKey token actDB authDB).1.1
     = delete token (entries actDB))
  ∧ (entries (ActivateApiKey token actDB authDB).1.2 = entries authDB
     ∨ ∃ acc,
         entries (ActivateApiKey token actDB authDB).1.2
         = <[AccEmail acc := (Marshal acc).1]> (entries authDB)).
Proof.
  unfold ActivateApiKey.
  pose proof (Get_entries actDB token) as HGet.
  destruct (Get actDB token) as [actDB1 [data [e|]]]; simpl in HGet.
  { simpl. split; by left. }
  destruct (Unmarshal data ApiKey_zero) as [apiKey uerr].
  pose proof (FetchAuthAccount_entries (Email apiKey) authDB) as HFetch.
  destruct (FetchAuthAccount (Email apiKey) authDB) as [authDB1 [acc err]].
  simpl in HFetch. case_bool_decide.
  { simpl. split; by left. }
  set (acc' := SetKey _ apiKey).
  pose proof (SaveAuthAccount_entries acc' authDB1) as HSave.
  destruct (SaveAuthAccount acc' authDB1) as [authDB2 serr]. simpl in HSave.
  pose proof (Delete_entries actDB1 token) as HDel.
  destruct (Delete actDB1 token) as [actDB2 [e|]]; simpl in *;
    rewrite HGet in HDel; rewrite HFetch in HSave;
    (split; [done|]);
    (destruct HSave as [HS|HS]; [by left|right; exists acc'; exact HS]).
Qed.

(** The run of the first activation for an email, handle by handle. *)
Lemma Activate_fresh_run
    (token data sdata : string) (uerr : option string) (apiKey : ApiKey)
    (actDB authDB : DB) :
  fault_free 2 actDB = true →
  fault_free 2 authDB = true →
  entries actDB !! token = Some data →
  Unmarshal data ApiKey_zero = (apiKey, uerr) →
  entries authDB !! Email apiKey = None →
  Marshal (mkAuthAccount (Email apiKey) [apiKey]) = (sdata, None) →
  ActivateApiKey token actDB authDB
  = (step (OpDelete token) (delete token (entries actDB))
       (step (OpGet token) (entries actDB) actDB),
     step (OpPut (Email apiKey) sdata)
       (<[Email apiKey := sdata]> (entries authDB))
       (step (OpGet (Email apiKey)) (entries authDB) authDB),
     (StatusOK, activated apiKey)).
Proof.
  intros Hact Hauth Htok Hkey Hnone Hsave.
  apply fault_free_S in Hact as [Hact1 Hact2].
  apply fault_free_S in Hauth as [Hauth1 Hauth2].
  rewrite (Activate_read _ _ _ _ _ _ Hact1 Htok Hkey). cbv zeta.
  unfold FetchAuthAccount. rewrite (Get_ok _ _ Hauth1), Hnone.
  rewrite bool_decide_false by (by intros [_ ?]).
  rewrite bool_decide_true by done.
  unfold SaveAuthAccount, SetKey. simpl. rewrite Hsave.
  set (authDB1 := step _ _ authDB). set (actDB1 := step _ _ actDB).
  assert (Hput : next_fault authDB1 = None)
    by (by destruct (fault_free_S 0 authDB1 (Hauth2 _ _))).
  assert (Hdel : next_fault actDB1 = None)
    by (by destruct (fault_free_S 0 actDB1 (Hact2 _ _))).
  by rewrite (Put_ok _ _ _ Hput), (Delete_ok _ _ Hdel).
Qed.

(** X13. The first activation for an email: when no storage operation
    fails and the auth namespace has no entry for the email of the
    pending key, the answer is 200, the account stored under that email
    has that email and this one key, and the pending entry is deleted. *)
Theorem Activate_new_account
    (token data sdata : string) (uerr : option string) (apiKey : ApiKey)
    (actDB authDB : DB) :
  fault_free 2 actDB = true →
  fault_free 2 authDB = true →
  entries actDB !! token = Some data →
  Unmarshal data ApiKey_zero = (apiKey, uerr) →
  entries authDB !! Email apiKey = None →
  Marshal (mkAuthAccount (Email apiKey) [apiKey]) = (sdata, None) →
  ∃ actDB' authDB',
    ActivateApiKey token actDB authDB
    = (actDB', authDB', (StatusOK, activated apiKey))
    ∧ entries authDB' = <[Email apiKey := sdata]> (entries authDB)
    ∧ entries actDB' = delete token (entries actDB).
Proof.
  intros Hact Hauth Htok Hkey Hnone Hsave.
  rewrite (Activate_fresh_run _ _ _ _ _ _ _ Hact Hauth Htok Hkey Hnone Hsave).
  by eexists _, _.
Qed.

(** X14. The activation of a key for a device that the account has no key
    for, when no storage operation fails: the answer is 200 and the
    account saved has the keys it had, in their order, followed by the
    new key. *)
Theorem Activate_new_device
    (token data adata sdata : string) (uerr : option string)
    (apiKey : ApiKey) (acc : AuthAccount) (actDB authDB : DB) :
  fault_free 2 actDB = true →
  fault_free 2 authDB = true →
  entries actDB !! token = Some data →
  Unmarshal data ApiKey_zero = (apiKey, uerr) →
  entries authDB !! Email apiKey = Some adata →
  Unmarshal adata AuthAccount_zero = (acc, None) →
  DeviceName apiKey ∉ device_names acc →
  Marshal (mkAuthAccount (AccEmail acc) (ApiKeys acc ++ [apiKey]))
  = (sdata, None) →
  ∃ actDB' authDB',
    ActivateApiKey token actDB authDB
    = (actDB', authDB', (StatusOK, activated apiKey))
    ∧ entries authDB' = <[AccEmail acc := sdata]> (entries authDB)
    ∧ entries actDB' = delete token (entries actDB).
Proof.
  intros Hact Hauth Htok Hkey Hacc Hdec Hnew Hsave.
  apply fault_free_S in Hact as [Hact1 Hact2].
  apply fault_free_S in Hauth as [Hauth1 Hauth2].
  rewrite (Activate_read _ _ _ _ _ _ Hact1 Htok Hkey). cbv zeta.
  unfold FetchAuthAccount. rewrite (Get_ok _ _ Hauth1), Hacc, Hdec.
  rewrite bool_decide_false by (by intros [? _]).
  rewrite bool_decide_false by done.
  unfold SaveAuthAccount, SetKey, RemoveKeyForDevice. simpl.
  rewrite (Remove_loop_absent _ _ Hnew), Hsave.
  set (authDB1 := step _ _ authDB). set (actDB1 := step _ _ actDB).
  assert (Hput : next_fault authDB1 = None)
    by (by destruct (fault_free_S 0 authDB1 (Hauth2 _ _))).
  assert (Hdel : next_fault actDB1 = None)
    by (by destruct (fault_free_S 0 actDB1 (Hact2 _ _))).
  rewrite (Put_ok _ _ _ Hput), (Delete_ok _ _ Hdel).
  by eexists _, _.
Qed.
End activation_effects.

Lemma Activate_new_account_witness :
  ∃ actDB' authDB',
    ActivateApiKey "tok-4" (leveldb.healthy pending_more)
      (leveldb.healthy auth_ab)
    = (actDB', authDB',
       (StatusOK, "The api key for the device laptop has been activated!"))
    ∧ leveldb.entries authDB' !! "c@d.org"
      = Some (Marshal (mkAuthAccount "c@d.org" [laptop_key])).1
    ∧ leveldb.entries actDB' !! "tok-4" = None.
Proof.
  destruct (Activate_new_account "tok-4" (Marshal laptop_key).1
              (Marshal (mkAuthAccount "c@d.org" [laptop_key])).1 None
              laptop_key (leveldb.healthy pending_more)
              (leveldb.healthy auth_ab))
    as (actDB' & authDB' & Hrun & Hauth & Hact);
    [reflexivity|reflexivity|reflexivity|vm_compute; reflexivity
    |reflexivity|reflexivity|].
  exists actDB', authDB'. rewrite Hrun, Hauth, Hact. split_and!.
  - reflexivity.
  - apply lookup_insert_eq.
  - apply lookup_delete_eq.
Defined.

Lemma Activate_new_device_witness :
  ∃ actDB' authDB',
    ActivateApiKey "tok-3" (leveldb.healthy pending_more)
      (leveldb.healthy auth_ab)
    = (actDB', authDB',
       (StatusOK, "The api key for the device watch has been activated!"))
    ∧ leveldb.entries authDB' !! "a@b.com"
      = Some (Marshal (mkAuthAccount "a@b.com"
                         [phone_key; pad_key; watch_key])).1.
Proof.
  destruct (Activate_new_device "tok-3" (Marshal watch_key).1
              (Marshal ab_account).1
              (Marshal (mkAuthAccount "a@b.com"
                          [phone_key; pad_key; watch_key])).1 None
              watch_key ab_account (leveldb.healthy pending_more)
              (leveldb.healthy auth_ab))
    as (actDB' & authDB' & Hrun & Hauth & Hact);
    [reflexivity|reflexivity|reflexivity|vm_compute; reflexivity
    |reflexivity|vm_compute; reflexivity|compute_done|reflexivity|].
  exists actDB', authDB'. rewrite Hrun, Hauth. split.
  - reflexivity.
  - apply lookup_insert_eq.
Defined.

Section activation_replay.
Context `{!Json ApiKey, !Json AuthAccount}.
Import leveldb.

Lemma Activate_no_entry (token : string) (actDB authDB : DB) :
  entries actDB !! token = None →
  ∃ actDB',
    ActivateApiKey token actDB authDB
    = (actDB', authDB, (StatusNotFound, "Token not valid")).
Proof.
  intros Hnone. unfold ActivateApiKey.
  destruct (Get_missing actDB token Hnone) as [e He].
  destruct (Get actDB token) as [actDB' [data err]]; simpl in *.
  injection He as -> ->. by exists actDB'.
Qed.

Lemma Delete_done (db db' : DB) (key : string) :
  Delete db key = (db', None) → entries db' !! key = None.
Proof.
  unfold Delete. destruct (next_fault db); [done|].
  intros [= <-]. simpl. apply lookup_delete_eq.
Qed.

Lemma Activate_OK_deleted (token body : string) (actDB authDB actDB' authDB' : DB) :
  ActivateApiKey token actDB authDB = (actDB', authDB', (StatusOK, body)) →
  entries actDB' !! token = None.
Proof.
  unfold ActivateApiKey.
  destruct (Get actDB token) as [actDB1 [data [e|]]]; [intros [=]|].
  destruct (Unmarshal data ApiKey_zero) as [apiKey uerr].
  destruct (FetchAuthAccount (Email apiKey) authDB) as [authDB1 [acc err]].
  case_bool_decide; [intros [=]|].
  destruct (SaveAuthAccount _ authDB1) as [authDB2 serr].
  destruct (Delete actDB1 token) as [actDB2 [e|]] eqn:HDel; [intros [=]|].
  intros [= <- _ _]. by eapply Delete_done.
Qed.

(** X15. A token works once: after an activation that answered 200, the
    same token is answered 404 [Token not valid], and that second request
    leaves the auth namespace untouched. *)
Theorem Activate_token_once
    (token body : string) (actDB authDB actDB' authDB' : DB) :
  ActivateApiKey token actDB authDB = (actDB', authDB', (StatusOK, body)) →
  ∃ actDB'',
    ActivateApiKey token actDB' authDB'
    = (actDB'', authDB', (StatusNotFound, "Token not valid")).
Proof.
  intros Hrun. apply Activate_no_entry. by eapply Activate_OK_deleted.
Qed.

(** X16. When the account cannot be read, because the read fails or the
    entry does not decode, the activation answers 500 with the error and
    changes nothing: the pending entry is still there for another try. *)
Theorem Activate_fetch_failure
    (token data msg : string) (uerr : option string) (apiKey : ApiKey)
    (actDB authDB : DB) :
  next_fault actDB = None →
  entries actDB !! token = Some data →
  Unmarshal data ApiKey_zero = (apiKey, uerr) →
  (FetchAuthAccount (Email apiKey) authDB).2.2 = Some (Err msg) →
  ∃ actDB' authDB',
    ActivateApiKey token actDB authDB
    = (actDB', authDB',
       (StatusInternalServerError, "Database error: " +:+ msg))
    ∧ entries actDB' = entries actDB
    ∧ entries authDB' = entries authDB.
Proof.
  intros Hok Htok Hkey Hfetch.
  rewrite (Activate_read _ _ _ _ _ _ Hok Htok Hkey). cbv zeta.
  pose proof (FetchAuthAccount_entries (Email apiKey) authDB) as Hent.
  destruct (FetchAuthAccount (Email apiKey) authDB) as [authDB1 [acc err]].
  simpl in *. subst err. rewrite bool_decide_true by done.
  by eexists _, _.
Qed.

(** X17. When the delete of the pending entry fails, the answer is 500,
    but the account with the merged key is already saved, and the pending
    entry is still there. *)
Theorem Activate_delete_failure
    (token data adata sdata msg : string) (uerr : option string)
    (apiKey : ApiKey) (acc : AuthAccount) (actDB authDB : DB) :
  next_fault actDB = None →
  next_fault (step (OpGet token) (entries actDB) actDB) = Some msg →
  fault_free 2 authDB = true →
  entries actDB !! token = Some data →
  Unmarshal data ApiKey_zero = (apiKey, uerr) →
  entries authDB !! Email apiKey = Some adata →
  Unmarshal adata AuthAccount_zero = (acc, None) →
  Marshal (SetKey acc apiKey) = (sdata, None) →
  ∃ actDB' authDB',
    ActivateApiKey token actDB authDB
    = (actDB', authDB',
       (StatusInternalServerError, "Database error: " +:+ msg))
    ∧ entries authDB' = <[AccEmail acc := sdata]> (entries authDB)
    ∧ entries actDB' = entries actDB.
Proof.
  intros Hact1 Hact2 Hauth Htok Hkey Hacc Hdec Hsave.
  apply fault_free_S in Hauth as [Hauth1 Hauth2].
  rewrite (Activate_read _ _ _ _ _ _ Hact1 Htok Hkey). cbv zeta.
  unfold FetchAuthAccount. rewrite (Get_ok _ _ Hauth1), Hacc, Hdec.
  rewrite bool_decide_false by (by intros [? _]).
  rewrite bool_decide_false by done.
  unfold SaveAuthAccount. rewrite Hsave.
  set (authDB1 := step _ _ authDB).
  assert (Hput : next_fault authDB1 = None)
    by (by destruct (fault_free_S 0 authDB1 (Hauth2 _ _))).
  rewrite (Put_ok _ _ _ Hput). unfold Delete. rewrite Hact2.
  by eexists _, _.
Qed.

(** X18. Replaying an activation is harmless: when the account stored for
    the email already is the result of merging the pending key into an
    account with one key per device, activating the token saves the same
    encoding again, so the auth namespace has the entries it had. *)
Theorem Activate_replay
    (token data sdata : string) (uerr : option string) (apiKey : ApiKey)
    (acc0 : AuthAccount) (actDB authDB : DB) :
  fault_free 2 actDB = true →
  fault_free 2 authDB = true →
  entries actDB !! token = Some data →
  Unmarshal data ApiKey_zero = (apiKey, uerr) →
  one_key_per_device acc0 →
  AccEmail acc0 = Email apiKey →
  entries authDB !! Email apiKey = Some sdata →
  Unmarshal sdata AuthAccount_zero = (SetKey acc0 apiKey, None) →
  Marshal (SetKey acc0 apiKey) = (sdata, None) →
  ∃ actDB' authDB',
    ActivateApiKey token actDB authDB
    = (actDB', authDB', (StatusOK, activated apiKey))
    ∧ entries authDB' = entries authDB
    ∧ entries actDB' = delete token (entries actDB).
Proof.
  intros Hact Hauth Htok Hkey Hinv Hemail Hacc Hdec Hsave.
  apply fault_free_S in Hact as [Hact1 Hact2].
  apply fault_free_S in Hauth as [Hauth1 Hauth2].
  rewrite (Activate_read _ _ _ _ _ _ Hact1 Htok Hkey). cbv zeta.
  unfold FetchAuthAccount. rewrite (Get_ok _ _ Hauth1), Hacc, Hdec.
  rewrite bool_decide_false by (by intros [? _]).
  rewrite bool_decide_false by done.
  rewrite (SetKey_keeps_twice acc0 apiKey Hinv).
  unfold SaveAuthAccount. rewrite Hsave.
  set (authDB1 := step _ _ authDB). set (actDB1 := step _ _ actDB).
  assert (Hput : next_fault authDB1 = None)
    by (by destruct (fault_free_S 0 authDB1 (Hauth2 _ _))).
  assert (Hdel : next_fault actDB1 = None)
    by (by destruct (fault_free_S 0 actDB1 (Hact2 _ _))).
  rewrite (Put_ok _ _ _ Hput), (Delete_ok _ _ Hdel).
  eexists _, _. split_and!; [done| |done].
  simpl. rewrite Hemail. by apply insert_id.
Qed.
End activation_replay.

Lemma Activate_token_once_witness :
  ∃ actDB'',
    ActivateApiKey "tok-1"
      (ActivateApiKey "tok-1" (leveldb.healthy pending_phone)
         (leveldb.healthy auth_ab)).1.1
      (ActivateApiKey "tok-1" (leveldb.healthy pending_phone)
         (leveldb.healthy auth_ab)).1.2
    = (actDB'',
       (ActivateApiKey "tok-1" (leveldb.healthy pending_phone)
          (leveldb.healthy auth_ab)).1.2,
       (StatusNotFound, "Token not valid")).
Proof.
  apply (Activate_token_once "tok-1"
           "The api key for the device phone has been activated!"
           (leveldb.healthy pending_phone) (leveldb.healthy auth_ab)).
  vm_compute. reflexivity.
Defined.

Lemma Activate_fetch_failure_witness :
  ∃ actDB' authDB',
    ActivateApiKey "tok-1" (leveldb.healthy pending_phone)
      (leveldb.mkDB auth_ab [Some "leveldb: closed"] [])
    = (actDB', authDB',
       (StatusInternalServerError, "Database error: leveldb: closed"))
    ∧ leveldb.entries actDB' !! "tok-1" = Some (Marshal new_phone_key).1
    ∧ leveldb.entries authDB' = auth_ab.
Proof.
  destruct (Activate_fetch_failure "tok-1" (Marshal new_phone_key).1
              "leveldb: closed" None new_phone_key
              (leveldb.healthy pending_phone)
              (leveldb.mkDB auth_ab [Some "leveldb: closed"] []))
    as (actDB' & authDB' & Hrun & Hact & Hauth);
    [reflexivity|reflexivity|vm_compute; reflexivity|reflexivity|].
  exists actDB', authDB'. rewrite Hrun, Hact, Hauth. split_and!; reflexivity.
Defined.

Lemma Activate_delete_failure_witness :
  ∃ actDB' authDB',
    ActivateApiKey "tok-1"
      (leveldb.mkDB pending_phone [None; Some "leveldb: read-only mode"] [])
      (leveldb.healthy auth_ab)
    = (actDB', authDB',
       (StatusInternalServerError,
        "Database error: leveldb: read-only mode"))
    ∧ leveldb.entries authDB' !! "a@b.com"
      = Some (Marshal (mkAuthAccount "a@b.com" [pad_key; new_phone_key])).1
    ∧ leveldb.entries actDB' !! "tok-1" = Some (Marshal new_phone_key).1.
Proof.
  destruct (Activate_delete_failure "tok-1" (Marshal new_phone_key).1
              (Marshal ab_account).1
              (Marshal (SetKey ab_account new_phone_key)).1
              "leveldb: read-only mode" None new_phone_key ab_account
              (leveldb.mkDB pending_phone
                 [None; Some "leveldb: read-only mode"] [])
              (leveldb.healthy auth_ab))
    as (actDB' & authDB' & Hrun & Hauth & Hact);
    [reflexivity|reflexivity|reflexivity|reflexivity|vm_compute; reflexivity
    |reflexivity|vm_compute; reflexivity|reflexivity|].
  exists actDB', authDB'. rewrite Hrun, Hauth, Hact. split_and!.
  - reflexivity.
  - rewrite lookup_insert_eq. vm_compute. reflexivity.
  - reflexivity.
Defined.

Lemma Activate_replay_witness :
  ∃ actDB' authDB',
    ActivateApiKey "tok-1" (leveldb.healthy pending_phone)
      (leveldb.healthy auth_ab_merged)
    = (actDB', authDB',
       (StatusOK, "The api key for the device phone has been activated!"))
    ∧ leveldb.entries authDB' = auth_ab_merged.
Proof.
  destruct (Activate_replay "tok-1" (Marshal new_phone_key).1
              (Marshal (SetKey ab_account new_phone_key)).1 None
              new_phone_key ab_account
              (leveldb.healthy pending_phone)
              (leveldb.healthy auth_ab_merged))
    as (actDB' & authDB' & Hrun & Hauth & Hact);
    [reflexivity|reflexivity|reflexivity|vm_compute; reflexivity
    |unfold one_key_per_device; compute_done|reflexivity|reflexivity
    |vm_compute; reflexivity|reflexivity|].
  exists actDB', authDB'. rewrite Hrun, Hauth. split; reflexivity.
Defined.

(** ** The data blob: missing, other accounts, failures *)

Section data_effects.
Import leveldb.
Implicit Types (acc : AuthAccount) (b : string) (db : DB).

(** X19. An account without a blob: when the read does not fail and the
    data namespace has no entry for the account's email, [GetData] answers
    404 with the email in the message and leaves the entries as they
    are. *)
Theorem GetData_missing acc db :
  next_fault db = None →
  entries db !! AccEmail acc = None →
  ∃ db',
    GetData acc db
    = (db', (StatusNotFound, "Could not find data for " +:+ AccEmail acc))
    ∧ entries db' = entries db.
Proof.
  intros Hok Hnone. unfold GetData. rewrite (Get_ok _ _ Hok), Hnone.
  by eexists.
Qed.

(** X20. The blobs of other accounts: [GetData] changes no entry of the
    data namespace, and [PutData] changes at most the entry of the
    account's own email, to the body given; it never removes an entry. *)
Theorem data_handlers_frame acc b db :
  entries (GetData acc db).1 = entries db
  ∧ (entries (PutData acc b db).1 = entries db
     ∨ entries (PutData acc b db).1 = <[AccEmail acc := b]> (entries db)).
Proof.
  split.
  - unfold GetData. pose proof (Get_entries db (AccEmail acc)) as Hent.
    destruct (Get db (AccEmail acc)) as [db' [data [[|msg]|]]]; done.
  - unfold PutData, Put. destruct (next_fault db); simpl; [by left|by right].
Qed.

(** X21. The last write wins: after two [PutData] of the same account
    and a [GetData], none of them hit by a storage failure, the answer
    is 200 with the second body. *)
Theorem PutData_twice acc b1 b2 db :
  fault_free 3 db = true →
  ∃ db1 db2 db3,
    PutData acc b1 db = (db1, (StatusOK, b1))
    ∧ PutData acc b2 db1 = (db2, (StatusOK, b2))
    ∧ GetData acc db2 = (db3, (StatusOK, b2)).
Proof.
  intros Hff. apply fault_free_S in Hff as [Hput1 Hff].
  pose (db1 := step (OpPut (AccEmail acc) b1)
                 (<[AccEmail acc := b1]> (entries db)) db).
  specialize (Hff (OpPut (AccEmail acc) b1)
                (<[AccEmail acc := b1]> (entries db))). fold db1 in Hff.
  apply fault_free_S in Hff as [Hput2 Hff].
  pose (db2 := step (OpPut (AccEmail acc) b2)
                 (<[AccEmail acc := b2]> (entries db1)) db1).
  specialize (Hff (OpPut (AccEmail acc) b2)
                (<[AccEmail acc := b2]> (entries db1))). fold db2 in Hff.
  apply fault_free_S in Hff as [Hget _].
  exists db1, db2, (step (OpGet (AccEmail acc)) (entries db2) db2).
  split_and!.
  - unfold PutData. by rewrite (Put_ok _ _ _ Hput1).
  - unfold PutData. by rewrite (Put_ok _ _ _ Hput2).
  - apply GetData_stored; [|done]. simpl. apply lookup_insert_eq.
Qed.

(** X22. A storage failure is answered 500 with the error in the message,
    by [PutData] and by [GetData], and the entries stay as they are; in
    particular a failed read is not answered 404. *)
Theorem data_storage_failure acc b db msg :
  next_fault db = Some msg →
  (PutData acc b db).2
  = (StatusInternalServerError, "Database error: " +:+ msg)
  ∧ (GetData acc db).2
    = (StatusInternalServerError, "Database error: " +:+ msg)
  ∧ entries (PutData acc b db).1 = entries db.
Proof.
  intros Hfault. unfold PutData, GetData, Put, Get. by rewrite Hfault.
Qed.
End data_effects.

Lemma GetData_missing_witness :
  ∃ db',
    GetData (mkAuthAccount "e@f.net" []) (leveldb.healthy blob_before)
    = (db', (StatusNotFound, "Could not find data for e@f.net"))
    ∧ leveldb.entries db' = blob_before.
Proof.
  apply (GetData_missing (mkAuthAccount "e@f.net" [])
           (leveldb.healthy blob_before)); reflexivity.
Defined.

Lemma PutData_twice_witness :
  ∃ db1 db2 db3,
    PutData ab_account "first" (leveldb.healthy blob_before)
    = (db1, (StatusOK, "first"))
    ∧ PutData ab_account "second" db1 = (db2, (StatusOK, "second"))
    ∧ GetData ab_account db2 = (db3, (StatusOK, "second")).
Proof.
  apply (PutData_twice ab_account "first" "second"
           (leveldb.healthy blob_before)).
  reflexivity.
Defined.

Lemma data_storage_failure_witness :
  (PutData ab_account "new"
     (leveldb.mkDB blob_before [Some "leveldb: closed"] [])).2
  = (StatusInternalServerError, "Database error: leveldb: closed")
  ∧ (GetData ab_account
       (leveldb.mkDB blob_before [Some "leveldb: closed"] [])).2
    = (StatusInternalServerError, "Database error: leveldb: closed")
  ∧ leveldb.entries
      (PutData ab_account "new"
         (leveldb.mkDB blob_before [Some "leveldb: closed"] [])).1
    = blob_before.
Proof.
  apply (data_storage_failure ab_account "new"
           (leveldb.mkDB blob_before [Some "leveldb: closed"] [])
           "leveldb: closed").
  reflexivity.
Defined.

(** ** The routes *)

Section route_effects.
Context `{!Json AuthAccount}.
Import leveldb.

Lemma Auth_mapped (h whole email key data : string) (acc : AuthAccount)
    (db : DB) :
  regexp.FindStringSubmatch re h = [whole; email; key] →
  next_fault db = None →
  entries db !! email = Some data →
  Unmarshal data AuthAccount_zero = (acc, None) →
  Validate acc key = true →
  Auth h db = (step (OpGet email) (entries db) db, Mapped acc).
Proof.
  intros Hm Hok Hdata Hdec Hv. rewrite (Auth_match _ _ _ _ _ Hm).
  unfold FetchAuthAccount. by rewrite (Get_ok _ _ Hok), Hdata, Hdec, Hv.
Qed.

Lemma Auth_not_mapped (h : string) (db : DB) :
  (∃ acc, (Auth h db).2 = Mapped acc)
  ∨ ∃ status message,
      (status = StatusUnauthorized ∨ status = StatusInternalServerError)
      ∧ (Auth h db).2 = Refused status message.
Proof.
  destruct (Auth_cases h db)
    as [[_ ->]|(whole & email & key & _ & _ & Hr)].
  - right. eauto.
  - destruct (FetchAuthAccount email db).2 as [acc [[|msg]|]].
    + right. eauto.
    + right. eauto.
    + rewrite Hr. destruct (Validate acc key); [left|right]; eauto.
Qed.

(** X23. No credentials, no data: on [GET /] and on [PUT /], unless [Auth]
    maps an account, the handle of the data namespace is returned as it
    was, without any operation on it, and the answer is the 401 or 500
    that [Auth] wrote: the status and the message of its [Refused]
    result, the message followed by a line feed. *)
Theorem routes_need_account (h b : string) (err : option error) (s : Stores) :
  (∃ acc, (Auth h (adb s)).2 = Mapped acc)
  ∨ ∃ status message,
      (Auth h (adb s)).2 = Refused status message
      ∧ (status = StatusUnauthorized ∨ status = StatusInternalServerError)
      ∧ route_GET_root h s
        = (mkStores (ddb s) (Auth h (adb s)).1 (acdb s),
           Reply status (message +:+ lf))
      ∧ route_PUT_root h b err s
        = (mkStores (ddb s) (Auth h (adb s)).1 (acdb s),
           Reply status (message +:+ lf)).
Proof.
  destruct (Auth_not_mapped h (adb s))
    as [?|(status & message & Hst & Hr)]; [by left|right].
  exists status, message. unfold route_GET_root, route_PUT_root.
  destruct (Auth h (adb s)) as [adb' r]. simpl in Hr. subst r. done.
Qed.


(** The run of [PUT /] and [GET /] behind a successful [Auth]. *)
Lemma PUT_then_GET_run
    (h whole email key data b : string) (acc : AuthAccount) (s : Stores) :
  regexp.FindStringSubmatch re h = [whole; email; key] →
  fault_free 2 (adb s) = true →
  fault_free 2 (ddb s) = true →
  entries (adb s) !! email = Some data →
  Unmarshal data AuthAccount_zero = (acc, None) →
  Validate acc key = true →
  ∃ s1 s2,
    route_PUT_root h b None s = (s1, Reply StatusOK b)
    ∧ route_GET_root h s1 = (s2, Reply StatusOK b)
    ∧ entries (ddb s2) = <[AccEmail acc := b]> (entries (ddb s)).
Proof.
  intros Hm Hadb Hddb Hdata Hdec Hv.
  apply fault_free_S in Hadb as [Hadb1 Hadb2].
  apply fault_free_S in Hddb as [Hddb1 Hddb2].
  pose (adb1 := step (OpGet email) (entries (adb s)) (adb s)).
  pose (ddb1 := step (OpPut (AccEmail acc) b)
                  (<[AccEmail acc := b]> (entries (ddb s))) (ddb s)).
  assert (Hadb1' : next_fault adb1 = None)
    by (by destruct (fault_free_S 0 adb1 (Hadb2 _ _))).
  assert (Hddb1' : next_fault ddb1 = None)
    by (by destruct (fault_free_S 0 ddb1 (Hddb2 _ _))).
  exists (mkStores ddb1 adb1 (acdb s)),
         (mkStores (step (OpGet (AccEmail acc)) (entries ddb1) ddb1)
            (step (OpGet email) (entries adb1) adb1) (acdb s)).
  split_and!.
  - unfold route_PUT_root.
    rewrite (Auth_mapped _ _ _ _ _ _ _ Hm Hadb1 Hdata Hdec Hv). simpl.
    unfold PutData. by rewrite (Put_ok _ _ _ Hddb1).
  - unfold route_GET_root. simpl.
    rewrite (Auth_mapped _ _ _ _ _ _ adb1 Hm Hadb1' Hdata Hdec Hv).
    rewrite (GetData_stored acc b ddb1); [done| |done].
    simpl. apply lookup_insert_eq.
  - done.
Qed.

(** X24. The round trip through the routes: with a header in which the
    pattern finds the email of a stored account and one of its keys, and
    no storage failure, [PUT /] with body [b] answers 200 with [b], and
    the [GET /] that follows with the same header answers 200 with
    [b]. *)
Theorem PUT_then_GET
    (h whole email key data b : string) (acc : AuthAccount) (s : Stores) :
  regexp.FindStringSubmatch re h = [whole; email; key] →
  fault_free 2 (adb s) = true →
  fault_free 2 (ddb s) = true →
  entries (adb s) !! email = Some data →
  Unmarshal data AuthAccount_zero = (acc, None) →
  Validate acc key = true →
  ∃ s1 s2,
    route_PUT_root h b None s = (s1, Reply StatusOK b)
    ∧ route_GET_root h s1 = (s2, Reply StatusOK b)
    ∧ entries (ddb s2) = <[AccEmail acc := b]> (entries (ddb s)).
Proof. apply PUT_then_GET_run. Qed.

(** X25. A body that could not be read is not stored: on [PUT /] with a
    failed read of the body the handle of the data namespace is returned
    as it was, whatever the header; behind a successful [Auth] the answer
    is the 500 of [InjectBody] with the error in its message. *)
Theorem PUT_unread_body (h b : string) (e : error) (s : Stores) :
  ddb (route_PUT_root h b (Some e) s).1 = ddb s
  ∧ ∀ acc, (Auth h (adb s)).2 = Mapped acc →
      (route_PUT_root h b (Some e) s).2
      = Reply StatusInternalServerError
          ("An error occured while reading the request body: "
           +:+ Error e +:+ lf).
Proof.
  unfold route_PUT_root. destruct (Auth h (adb s)) as [adb' [acc|st msg|]];
    simpl; (split; [done|]); intros acc' [=]. subst acc'.
  unfold reply_of, http_Error. simpl. by rewrite string_app_assoc.
Qed.
End route_effects.

(** A wrong key on both routes: the answer is the message of [Auth]. *)
Example routes_need_account_run :
  route_GET_root "ApiKey a@b.com:wrong" stores_ab
  = (mkStores (ddb stores_ab)
       (Auth "ApiKey a@b.com:wrong" (adb stores_ab)).1 (acdb stores_ab),
     Reply StatusUnauthorized ("The provided key was not valid" +:+ lf))
  ∧ route_PUT_root "ApiKey a@b.com:wrong" "{x:1}" None stores_ab
    = (mkStores (ddb stores_ab)
         (Auth "ApiKey a@b.com:wrong" (adb stores_ab)).1 (acdb stores_ab),
       Reply StatusUnauthorized ("The provided key was not valid" +:+ lf)).
Proof. split; vm_compute; reflexivity. Qed.

Lemma PUT_then_GET_witness :
  ∃ s1 s2,
    route_PUT_root "ApiKey a@b.com:k2" "{x:1}" None stores_ab
    = (s1, Reply StatusOK "{x:1}")
    ∧ route_GET_root "ApiKey a@b.com:k2" s1 = (s2, Reply StatusOK "{x:1}")
    ∧ leveldb.entries (ddb s2) !! "c@d.org" = Some "other".
Proof.
  destruct (PUT_then_GET "ApiKey a@b.com:k2" "ApiKey a@b.com:k2" "a@b.com"
              "k2" (Marshal ab_account).1 "{x:1}" ab_account stores_ab)
    as (s1 & s2 & Hput & Hget & Hent);
    [vm_compute; reflexivity|reflexivity|reflexivity|reflexivity
    |vm_compute; reflexivity|reflexivity|].
  exists s1, s2. rewrite Hent. split_and!; [done|done|reflexivity].
Defined.

(** ** The server *)

Section server_effects.
Context `{!Json ApiKey, !Json AuthAccount}.
Variables emailUser emailServer emailPort emailPassword : string.
Variable actEmailTemp : string → string → string → string.
Import leveldb.

Lemma Auth_entries (h : string) (db : DB) :
  entries (Auth h db).1 = entries db.
Proof.
  destruct (Auth_cases h db)
    as [[_ ->]|(whole & email & key & _ & -> & _)]; [done|].
  apply FetchAuthAccount_entries.
Qed.

Lemma GetData_entries (acc : AuthAccount) (db : DB) :
  entries (GetData acc db).1 = entries db.
Proof.
  unfold GetData. pose proof (Get_entries db (AccEmail acc)) as Hent.
  by destruct (Get db (AccEmail acc)) as [db' [data [[|msg]|]]].
Qed.

Lemma forallb_take {A} (P : A → bool) (l : list A) (n : nat) :
  forallb P l = true → forallb P (take n l) = true.
Proof.
  revert n. induction l as [|x l IH]; intros [|n]; simpl; try done.
  intros [Hx Hl]%andb_prop. rewrite Hx. by apply IH.
Qed.

Lemma fault_free_weaken (n m : nat) (db : DB) :
  n ≤ m → fault_free m db = true → fault_free n db = true.
Proof.
  intros Hle Hm. unfold fault_free in *.
  replace n with (n `min` m) by lia. rewrite <- take_take.
  by apply forallb_take.
Qed.

Lemma fault_free_step (n : nat) (db : DB) (o : op) (m : gmap string string) :
  fault_free (S n) db = true → fault_free n (step o m db) = true.
Proof. intros Hff. by destruct (fault_free_S n db Hff) as [_ ?]. Qed.

Lemma fault_free_next (n : nat) (db : DB) :
  fault_free (S n) db = true → next_fault db = None.
Proof. intros Hff. by destruct (fault_free_S n db Hff) as [? _]. Qed.

(** X26. Every request keeps to the namespaces of its route.
    [POST /auth] leaves the data and the auth database alone;
    [GET /activate] leaves the data database and the mail server alone;
    [GET /] changes no entry anywhere; [PUT /] changes no entry of the
    auth namespace and does not touch the pending one. *)
Theorem serve_frame (req : request) (s : Stores) (srv : smtp.Server) :
  let r := serve emailUser emailServer emailPort emailPassword actEmailTemp
             req s srv in
  match req with
  | POST_auth _ _ _ _ _ => ddb r.1.1 = ddb s ∧ adb r.1.1 = adb s
  | GET_activate _ => ddb r.1.1 = ddb s ∧ r.1.2 = srv
  | GET_root _ =>
      entries (ddb r.1.1) = entries (ddb s)
      ∧ entries (adb r.1.1) = entries (adb s)
      ∧ acdb r.1.1 = acdb s ∧ r.1.2 = srv
  | PUT_root _ _ _ =>
      entries (adb r.1.1) = entries (adb s)
      ∧ acdb r.1.1 = acdb s ∧ r.1.2 = srv
  end.
Proof.
  destruct req as [email deviceName host rk rt|token|h|h b err]; simpl.
  - by destruct (RequestApiKey _ _ _ _ _ _ _ _ _ _ _ _)
      as [[[acdb' srv'] hdrs] r].
  - by destruct (ActivateApiKey token (acdb s) (adb s)) as [[acdb' adb'] r].
  - unfold route_GET_root. pose proof (Auth_entries h (adb s)) as Hauth.
    destruct (Auth h (adb s)) as [adb' [acc|st msg|]]; simpl in *; try done.
    pose proof (GetData_entries acc (ddb s)) as Hget.
    by destruct (GetData acc (ddb s)) as [ddb' r].
  - unfold route_PUT_root. pose proof (Auth_entries h (adb s)) as Hauth.
    destruct (Auth h (adb s)) as [adb' [acc|st msg|]]; simpl in *; try done.
    destruct err as [e|]; simpl; [done|].
    by destruct (PutData acc b (ddb s)) as [ddb' r].
Qed.

(** X27. From the request of a key to the data: for an email that is not
    empty, on one line and without an account, a codec that reads back
    what it writes for the key and for the account, and no storage
    failure, [POST /auth] answers 200 with the encoded key; [GET
    /activate] with the token generated answers 200; and then [PUT /] and
    [GET /] with the header [ApiKey <email>:<key>] made of the key
    generated answer 200 with the body sent. *)
Theorem request_activate_use
    (email deviceName host b sdata : string) (rnd_key rnd_token : list Z)
    (uerr : option string) (s : Stores) (srv : smtp.Server) :
  let apiKey := mkApiKey email deviceName (uuid rnd_key) in
  let header := "ApiKey " +:+ email +:+ ":" +:+ uuid rnd_key in
  let serve := serve emailUser emailServer emailPort emailPassword
                 actEmailTemp in
  email ≠ "" → one_line email →
  fault_free 3 (acdb s) = true →
  fault_free 4 (adb s) = true →
  fault_free 2 (ddb s) = true →
  entries (adb s) !! email = None →
  Unmarshal (Marshal apiKey).1 ApiKey_zero = (apiKey, uerr) →
  Marshal (mkAuthAccount email [apiKey]) = (sdata, None) →
  Unmarshal sdata AuthAccount_zero = (mkAuthAccount email [apiKey], None) →
  ∃ s1 srv1 s2 s3 s4,
    serve (POST_auth email deviceName host rnd_key rnd_token) s srv
    = (s1, srv1, Reply StatusOK (Marshal apiKey).1)
    ∧ serve (GET_activate (uuid rnd_token)) s1 srv1
      = (s2, srv1, Reply StatusOK (activated apiKey))
    ∧ serve (PUT_root header b None) s2 srv1 = (s3, srv1, Reply StatusOK b)
    ∧ serve (GET_root header) s3 srv1 = (s4, srv1, Reply StatusOK b).
Proof.
  intros apiKey header serve' He Hline Hacdb Hadb Hddb Hnone Hkey Hsave Hacc.
  subst serve'.
  set (token := uuid rnd_token). set (data := (Marshal apiKey).1).
  pose (acdb1 := step (OpPut token data) (<[token := data]> (entries (acdb s)))
                   (acdb s)).
  assert (Hpost : ∃ srv1,
    serve emailUser emailServer emailPort emailPassword actEmailTemp
      (POST_auth email deviceName host rnd_key rnd_token) s srv
    = (mkStores (ddb s) (adb s) acdb1, srv1, Reply StatusOK data)).
  { unfold serve, RequestApiKey. fold apiKey token. subst data.
    destruct (Marshal apiKey) as [data merr]. simpl.
    rewrite (Put_ok _ _ _ (fault_free_next _ _ Hacdb)). fold acdb1.
    destruct (sendMail _ _ _ _ _ _ _ _) as [srv1 merr']. exists srv1.
    reflexivity. }
  destruct Hpost as [srv1 Hpost].
  assert (Hact : ActivateApiKey token acdb1 (adb s) = _)
    by (apply (Activate_fresh_run token data sdata uerr apiKey acdb1 (adb s));
        [by apply fault_free_step
        |by apply (fault_free_weaken 2 4); [lia|]
        |apply lookup_insert_eq|done|done|done]).
  set (acdb2 := step (OpDelete token) _ _) in Hact.
  set (adb2 := step (OpPut (Email apiKey) sdata) _ _) in Hact.
  assert (Hm : regexp.FindStringSubmatch re header
               = [header; email; uuid rnd_key]).
  { destruct (uuid_plain rnd_key) as (Hk & Hkline & Hcolon).
    by apply FindStringSubmatch_colon_free_key. }
  destruct (PUT_then_GET_run header header email (uuid rnd_key) sdata b
              (mkAuthAccount email [apiKey]) (mkStores (ddb s) adb2 acdb2))
    as (s3 & s4 & Hput & Hget & _); simpl.
  { done. }
  { subst adb2. do 2 apply fault_free_step. done. }
  { done. }
  { subst adb2. simpl. apply lookup_insert_eq. }
  { done. }
  { unfold Validate. simpl. by rewrite String.eqb_refl. }
  exists (mkStores (ddb s) (adb s) acdb1), srv1,
         (mkStores (ddb s) adb2 acdb2), s3, s4.
  split_and!.
  - done.
  - unfold serve. simpl. by rewrite Hact.
  - unfold serve. by rewrite Hput.
  - unfold serve. by rewrite Hget.
Qed.
(** X28. The statuses of the routes, in every run: [POST /auth] answers
    200, whatever the store and the mail server do; [GET /activate]
    answers 200, 404 or 500; [GET /] answers 200, 401, 404 or 500;
    [PUT /] answers 200, 401 or 500.  No request ends in a panic. *)
Theorem serve_statuses (req : request) (s : Stores) (srv : smtp.Server) :
  ∃ status body,
    (serve emailUser emailServer emailPort emailPassword actEmailTemp
       req s srv).2 = Reply status body
    ∧ match req with
      | POST_auth _ _ _ _ _ => status = StatusOK
      | GET_activate _ =>
          status = StatusOK ∨ status = StatusNotFound
          ∨ status = StatusInternalServerError
      | GET_root _ =>
          status = StatusOK ∨ status = StatusUnauthorized
          ∨ status = StatusNotFound ∨ status = StatusInternalServerError
      | PUT_root _ _ _ =>
          status = StatusOK ∨ status = StatusUnauthorized
          ∨ status = StatusInternalServerError
      end.
Proof.
  destruct req as [email deviceName host rk rt|token|h|h b err].
  - unfold serve, RequestApiKey. destruct (Marshal _) as [data merr].
    destruct (Put _ _ _) as [acdb' perr].
    destruct (sendMail _ _ _ _ _ _ _ _) as [srv1 merr']. unfold reply_of. simpl. by eauto 12.
  - unfold serve, ActivateApiKey.
    destruct (Get (acdb s) token) as [acdb1 [data [e|]]];
      [unfold reply_of; simpl; by eauto 12|].
    destruct (Unmarshal data ApiKey_zero) as [apiKey uerr].
    destruct (FetchAuthAccount (Email apiKey) (adb s)) as [adb1 [acc ferr]].
    case_bool_decide; [unfold reply_of; simpl; by eauto 12|].
    destruct (SaveAuthAccount _ adb1) as [adb2 serr].
    destruct (Delete acdb1 token) as [acdb2 [e|]];
      unfold reply_of; simpl; by eauto 12.
  - unfold serve, route_GET_root.
    destruct (Auth_not_mapped h (adb s))
      as [[acc Hr]|(st & msg & Hst & Hr)];
      destruct (Auth h (adb s)) as [adb' r]; simpl in Hr; subst r.
    + unfold GetData.
      destruct (Get (ddb s) (AccEmail acc)) as [ddb' [data [[|m]|]]];
        unfold reply_of; simpl; by eauto 12.
    + unfold reply_of. simpl. destruct Hst as [->| ->]; by eauto 12.
  - unfold serve, route_PUT_root.
    destruct (Auth_not_mapped h (adb s))
      as [[acc Hr]|(st & msg & Hst & Hr)];
      destruct (Auth h (adb s)) as [adb' r]; simpl in Hr; subst r.
    + destruct err as [e|]; [unfold reply_of; simpl; by eauto 12|].
      unfold PutData, InjectBody.
      destruct (Put (ddb s) (AccEmail acc) b) as [ddb' [e|]];
        unfold reply_of; simpl; by eauto 12.
    + unfold reply_of. simpl. destruct Hst as [->| ->]; by eauto 12.
Qed.
End server_effects.

Lemma request_activate_use_witness :
  ∃ s1 srv1 s2 s3 s4,
    serve "padlock@x.org" "smtp.x.org" "587" "secret" activate_txt
      (POST_auth "e@f.net" "phone" "x.org" [1; 2; 3]%Z [4; 5; 6]%Z)
      stores_ab refusing_server
    = (s1, srv1,
       Reply StatusOK
         (Marshal (mkApiKey "e@f.net" "phone" (uuid [1; 2; 3]%Z))).1)
    ∧ serve "padlock@x.org" "smtp.x.org" "587" "secret" activate_txt
        (GET_activate (uuid [4; 5; 6]%Z)) s1 srv1
      = (s2, srv1,
         Reply StatusOK
           (activated (mkApiKey "e@f.net" "phone" (uuid [1; 2; 3]%Z))))
    ∧ serve "padlock@x.org" "smtp.x.org" "587" "secret" activate_txt
        (PUT_root ("ApiKey " +:+ "e@f.net" +:+ ":" +:+ uuid [1; 2; 3]%Z)
           "{x:1}" None) s2 srv1
      = (s3, srv1, Reply StatusOK "{x:1}")
    ∧ serve "padlock@x.org" "smtp.x.org" "587" "secret" activate_txt
        (GET_root ("ApiKey " +:+ "e@f.net" +:+ ":" +:+ uuid [1; 2; 3]%Z))
        s3 srv1
      = (s4, srv1, Reply StatusOK "{x:1}").
Proof.
  apply (request_activate_use "padlock@x.org" "smtp.x.org" "587" "secret"
           activate_txt "e@f.net" "phone" "x.org" "{x:1}"
           (Marshal (mkAuthAccount "e@f.net"
                       [mkApiKey "e@f.net" "phone" (uuid [1; 2; 3]%Z)])).1
           [1; 2; 3]%Z [4; 5; 6]%Z None stores_ab refusing_server).
  - discriminate.
  - unfold one_line. compute_done.
  - reflexivity.
  - reflexivity.
  - reflexivity.
  - reflexivity.
  - vm_compute. reflexivity.
  - reflexivity.
  - vm_compute. reflexivity.
Defined.

(** ** Headers that cannot be credentials *)

Section short_headers.
Context `{!Json AuthAccount}.
Import leveldb.

Lemma chars_length (a : string) :
  length (list_ascii_of_string a) = String.length a.
Proof. induction a as [|c a IH]; simpl; [done|]. by rewrite IH. Qed.

(** X29. A header without a colon, or shorter than the ten characters of
    [ApiKey x:y], is refused with 401 [No valid authorization header
    provided], and the handle of the auth namespace is returned as it
    was: no read is made for it.  This is the answer to a request without
    the header, whose value is the empty string. *)
Theorem Auth_hopeless_header (h : string) (db : DB) :
  (":"%char : ascii) ∉ list_ascii_of_string h ∨ String.length h < 10 →
  Auth h db
  = (db, Refused StatusUnauthorized "No valid authorization header provided").
Proof.
  intros Hh. apply Auth_no_match.
  destruct (FindStringSubmatch_re h)
    as [Hnil|(pre & e & k & post & -> & _ & He & Hk & _)]; [done|].
  exfalso. destruct Hh as [Hcolon|Hshort].
  - apply Hcolon. rewrite !chars_app. rewrite !elem_of_app. right. right.
    right. left. simpl. by left.
  - rewrite <- chars_length, !chars_app, !length_app in Hshort.
    rewrite !chars_length in Hshort.
    destruct e; [done|]. destruct k; [done|]. simpl in Hshort. lia.
Qed.
End short_headers.

Lemma Auth_hopeless_header_witness :
  Auth "" (leveldb.healthy auth_ab)
  = (leveldb.healthy auth_ab,
     Refused StatusUnauthorized "No valid authorization header provided").
Proof.
  apply (Auth_hopeless_header "" (leveldb.healthy auth_ab)).
  right. simpl. lia.
Defined.

(** ** Requesting a key: every run, and the run with a failed write *)

Section request.
Context `{!Json ApiKey}.
Variables emailUser emailServer emailPort emailPassword : string.
Variable actEmailTemp : string → string → string → string.
Import leveldb.

(** X30. Every run of [RequestApiKey]: the key and the token are version
    4 UUIDs made from the two reads of random bytes; the serialized
    [ApiKey] of the form values and that key is written with one [Put]
    under the token, which stores it unless the write itself fails; the
    answer is 200 with that serialization as body, also when the write
    failed.  The answer and the pending namespace are the same for a mail
    server that accepts and for one that refuses: only the server's own
    state differs, by the one mail delivered to the email given. *)
Theorem RequestApiKey_every_run
    (email deviceName host : string) (rnd_key rnd_token : list Z)
    (actDb : DB) (srv : smtp.Server) :
  let apiKey := mkApiKey email deviceName (uuid rnd_key) in
  let token := uuid rnd_token in
  let data := (Marshal apiKey).1 in
  uuid_shape (Key apiKey) = true
  ∧ uuid_shape token = true
  ∧ ∃ actDb' srv',
      RequestApiKey emailUser emailServer emailPort emailPassword
        actEmailTemp email deviceName host rnd_key rnd_token actDb srv
        = (actDb', srv', [("Content-Type", "application/json")],
           (StatusOK, data))
      ∧ actDb' = (Put actDb token data).1
      ∧ entries actDb' =
          match next_fault actDb with
          | None => <[token := data]> (entries actDb)
          | Some _ => entries actDb
          end
      ∧ (∀ srv2 : smtp.Server, ∃ srv2',
           RequestApiKey emailUser emailServer emailPort emailPassword
             actEmailTemp email deviceName host rnd_key rnd_token actDb srv2
             = (actDb', srv2', [("Content-Type", "application/json")],
                (StatusOK, data)))
      ∧ match smtp.refusing srv with
        | Some _ => srv' = srv
        | None =>
            smtp.delivered srv'
            = smtp.delivered srv ++
                [smtp.mkMail (emailServer +:+ ":" +:+ emailPort)
                   (smtp.PlainAuth "" emailUser emailPassword emailServer)
                   emailUser [email]
                   ("Subject: Api key activation" +:+ crlf +:+ crlf +:+
                    actEmailTemp email deviceName
                      ("http://" +:+ host +:+ "/activate/" +:+ token))]
        end.
Proof.
  intros apiKey token data. split; [apply uuid_shape_of_buffer|].
  split; [apply uuid_shape_of_buffer|].
  subst data. unfold RequestApiKey.
  fold apiKey token. destruct (Marshal apiKey) as [data merr]; simpl.
  destruct (Put actDb token data) as [actDb' perr] eqn:HPut.
  assert (Hent : entries actDb' =
            match next_fault actDb with
            | None => <[token := data]> (entries actDb)
            | Some _ => entries actDb
            end).
  { unfold Put in HPut. destruct (next_fault actDb);
      by injection HPut as <- <-. }
  unfold sendMail, smtp.SendMail.
  destruct (smtp.refusing srv) eqn:Hsrv; simpl.
  - exists actDb', srv. split_and!; try done.
    intros srv2. destruct (smtp.refusing srv2); eauto.
  - eexists actDb', _. split_and!; try done.
    intros srv2. destruct (smtp.refusing srv2); eauto.
Qed.
End request.

(** C9 on the code.  A request for a key while the write to the pending
    namespace fails: the error of [actDb.Put] is dropped, the answer is
    200 with the serialized key as for a stored one, and the activation
    mail with the token is sent; but the pending namespace has the entries
    it had and none under the token, so that the token of the mail is
    answered 404. *)
Theorem RequestApiKey_write_failure_answers_OK :
  ∃ actDb' srv',
    RequestApiKey "padlock@x.org" "smtp.x.org" "587" "secret" activate_txt
      "a@b.com" "phone" "x.org" [1; 2; 3]%Z [4; 5; 6]%Z
      pending_write_fails accepting_server
    = (actDb', srv', [("Content-Type", "application/json")],
       (StatusOK,
        (Marshal (mkApiKey "a@b.com" "phone"
                    "01020300-0000-4000-8000-000000000000")).1))
    ∧ leveldb.log actDb'
      = [leveldb.OpPut "04050600-0000-4000-8000-000000000000"
           (Marshal (mkApiKey "a@b.com" "phone"
                       "01020300-0000-4000-8000-000000000000")).1]
    ∧ leveldb.entries actDb' = pending_phone
    ∧ leveldb.entries actDb' !! "04050600-0000-4000-8000-000000000000" = None
    ∧ smtp.msg <$> smtp.delivered srv'
      = ["Subject: Api key activation" +:+ crlf +:+ crlf +:+
         "Activate phone for a@b.com: "
         +:+ "http://x.org/activate/04050600-0000-4000-8000-000000000000"]
    ∧ (ActivateApiKey "04050600-0000-4000-8000-000000000000" actDb'
         (leveldb.healthy auth_ab)).2
      = (StatusNotFound, "Token not valid").
Proof.
  eexists _, _. split_and!.
  - vm_compute. reflexivity.
  - vm_compute. reflexivity.
  - reflexivity.
  - reflexivity.
  - vm_compute. reflexivity.
  - vm_compute. reflexivity.
Qed.

(** The same request with a write that works stores the key under the
    token. *)
Example RequestApiKey_write_works :
  leveldb.entries
    (RequestApiKey "padlock@x.org" "smtp.x.org" "587" "secret" activate_txt
       "a@b.com" "phone" "x.org" [1; 2; 3]%Z [4; 5; 6]%Z
       (leveldb.healthy pending_phone) accepting_server).1.1.1
    !! "04050600-0000-4000-8000-000000000000"
  = Some (Marshal (mkApiKey "a@b.com" "phone"
                     "01020300-0000-4000-8000-000000000000")).1.
Proof. vm_compute. reflexivity. Qed.
